(** * The video pipeline of examples/yolov8/cpp/video.cc

    A shallow embedding of [main] in video.cc: the start-up sequence, the
    frame loop, the report printed for every frame, the mapping of the
    detection boxes back to the frame and the clean-up.

    - [float] is IEEE binary32 and [double] binary64, both taken from the
      specification of floating-point arithmetic of the Standard Library
      ([SpecFloat]), at precision 24/emax 128 and 53/1024.
    - [int] and [long long] are [Z]; the places where the width matters
      ([frame_count++], the buffer size) have the wrap-around written out.
    - What the program does to the outside (printf, OpenCV, the RKNN
      calls) is recorded in a trace of events; what the outside answers
      (the frames, the result of each inference, the clock) is the [world]
      the program runs in. *)

From Stdlib Require Import ZArith Lia List Bool String Ascii.
From Stdlib Require Import Floats.SpecFloat.
Import ListNotations.
Open Scope Z_scope.

(** ** Machine numbers *)

Module F32.

Definition prec : Z := 24.
Definition emax : Z := 128.

(** [(float) z] for an [int] z: round to nearest, ties to even. *)
Definition of_int (z : Z) : spec_float := binary_normalize prec emax z 0 false.

Definition mul : spec_float -> spec_float -> spec_float := SFmul prec emax.
Definition div : spec_float -> spec_float -> spec_float := SFdiv prec emax.

End F32.

Module F64.

Definition prec : Z := 53.
Definition emax : Z := 1024.

Definition of_int (z : Z) : spec_float := binary_normalize prec emax z 0 false.

Definition div : spec_float -> spec_float -> spec_float := SFdiv prec emax.
Definition leb : spec_float -> spec_float -> bool := SFleb.

End F64.

Definition INT_MIN : Z := -2147483648.
Definition INT_MAX : Z := 2147483647.

(** The integer part of [m * 2^e], [m] positive. *)
Definition trunc_mag (m : positive) (e : Z) : Z :=
  match e with
  | Z0 => Zpos m
  | Zpos _ => Z.shiftl (Zpos m) e
  | Zneg p => Z.shiftr (Zpos m) (Zpos p)
  end.

(** [(int) f]: the fractional part is discarded.  C++ leaves the
    conversion undefined when the integer part does not fit an [int] and
    for a NaN; [cast_in_range] says that the conversion is defined by the
    language, and every statement below about a value that comes out of a
    conversion assumes it.  Outside that range the function is made total
    with the answer of Rockchip's Arm cores (FCVTZS and VCVT saturate and
    turn a NaN into 0); other machines answer differently there, and
    nothing is claimed about it. *)
Definition int_of_float (f : spec_float) : Z :=
  match f with
  | S754_zero _ => 0
  | S754_nan => 0
  | S754_infinity s => if s then INT_MIN else INT_MAX
  | S754_finite s m e =>
      if s then Z.max INT_MIN (- trunc_mag m e)
      else Z.min INT_MAX (trunc_mag m e)
  end.

Definition cast_in_range (f : spec_float) : bool :=
  match f with
  | S754_zero _ => true
  | S754_nan => false
  | S754_infinity _ => false
  | S754_finite s m e =>
      if s then (trunc_mag m e <=? - INT_MIN) else (trunc_mag m e <=? INT_MAX)
  end.

(** [int] arithmetic that can leave the range: two's complement. *)
Definition wrap_int (z : Z) : Z := (z + 2147483648) mod 4294967296 - 2147483648.

(** [long long] arithmetic: two's complement on 64 bits. *)
Definition wrap_ll (z : Z) : Z :=
  (z + 9223372036854775808) mod 18446744073709551616 - 9223372036854775808.

(** A finite float above zero. *)
Definition finite_pos (f : spec_float) : bool :=
  match f with
  | S754_finite false _ _ => true
  | _ => false
  end.

(** ** The data the loop works on *)

(** Modelled from the spec: [image_rect_t] and [object_detect_result] are
    declared in postprocess.h, which is not part of the sources at hand;
    the fields are the ones video.cc reads, with the types its printf
    conversions give them ([%d] for the edges, [%.3f] for [prop]). *)
Record image_rect_t := { left : Z; top : Z; right : Z; bottom : Z }.

Record object_detect_result :=
  { box : image_rect_t; prop : spec_float; cls_id : Z }.

(** [object_detect_result_list]: [count] and the first [count] entries of
    [results] together are a list. *)
Definition object_detect_result_list := list object_detect_result.

Definition count (l : object_detect_result_list) : Z := Z.of_nat (List.length l).

(** What the program needs of a [cv::Mat]. *)
Record Mat := { cols : Z; rows : Z }.

Definition empty (m : Mat) : bool := (cols m =? 0) || (rows m =? 0).

Definition no_frame : Mat := {| cols := 0; rows := 0 |}.

(** ** Coordinate mapping, lines 119-134 *)

(** [float scale_x = (float)frame.cols / app_ctx.model_width] *)
Definition scale (frame_dim model_dim : Z) : spec_float :=
  F32.div (F32.of_int frame_dim) (F32.of_int model_dim).

(** [(int)(det->box.left * scale_x)] *)
Definition scale_edge (edge : Z) (s : spec_float) : Z :=
  int_of_float (F32.mul (F32.of_int edge) s).

(** [std::max(0, std::min(x1, frame.cols - 1))] *)
Definition clamp (v frame_dim : Z) : Z := Z.max 0 (Z.min v (frame_dim - 1)).

(** Lines 126-129. *)
Definition scale_box (b : image_rect_t) (scale_x scale_y : spec_float)
  : image_rect_t :=
  {| left := scale_edge (left b) scale_x;
     top := scale_edge (top b) scale_y;
     right := scale_edge (right b) scale_x;
     bottom := scale_edge (bottom b) scale_y |}.

(** Lines 131-134. *)
Definition clamp_box (b : image_rect_t) (frame : Mat) : image_rect_t :=
  {| left := clamp (left b) (cols frame);
     top := clamp (top b) (rows frame);
     right := clamp (right b) (cols frame);
     bottom := clamp (bottom b) (rows frame) |}.

(** The four conversions of lines 126-129 are defined by the language. *)
Definition box_in_range (b : image_rect_t) (scale_x scale_y : spec_float)
  : bool :=
  cast_in_range (F32.mul (F32.of_int (left b)) scale_x)
  && cast_in_range (F32.mul (F32.of_int (top b)) scale_y)
  && cast_in_range (F32.mul (F32.of_int (right b)) scale_x)
  && cast_in_range (F32.mul (F32.of_int (bottom b)) scale_y).

(** Lines 126-134 for one detection. *)
Definition map_box (b : image_rect_t) (scale_x scale_y : spec_float)
  (frame : Mat) : image_rect_t :=
  clamp_box (scale_box b scale_x scale_y) frame.

(** Lines 119-134 for one detection of a frame. *)
Definition map_detection (frame : Mat) (model_width model_height : Z)
  (b : image_rect_t) : image_rect_t :=
  map_box b (scale (cols frame) model_width) (scale (rows frame) model_height)
    frame.

(** ** The trace *)

(** An argument of printf or sprintf, by its conversion. *)
Inductive arg :=
| AStr (s : string)          (* %s *)
| AInt (z : Z)               (* %d *)
| ALong (z : Z)              (* %lld *)
| ADouble (f : spec_float).  (* %f, after the default promotion *)

(** A statement of [main] that acts on the outside or that a later stage
    builds on.  Format strings are kept as the source spells them. *)
Inductive event :=
| Printf (fmt : string) (args : list arg)
| InitPostProcess
| DeinitPostProcess
| InitModel (model_path : string)
| ReleaseModel
| CapOpenDevice (id : Z)
| CapOpenFile (path : string)
| CapRelease
| WriterOpen (fps : spec_float) (width height : Z)
| WriterWrite
| WriterRelease
| CapRead (frame : Mat)                        (* cap >> frame *)
| Clone                                        (* display_img = frame.clone() *)
| Resize (width height : Z)
| CvtColor
| Inference (width height size : Z)
| Scales (scale_x scale_y : spec_float)        (* lines 119-120 *)
| MapBox (scaled : image_rect_t)               (* lines 126-134 *)
| Rectangle (x1 y1 x2 y2 : Z)
| PutText (fmt : string) (args : list arg) (x y : Z).

(** ** The world *)

(** What one turn of the loop is answered: the frame the capture
    delivers, what [inference_yolov8_model] returns and leaves in
    [od_results], and the time the clock shows to have passed between
    [start] and [end], in milliseconds. *)
Record frame_step :=
  { decoded : Mat;
    infer_ret : Z;
    infer_out : object_detect_result_list;
    elapsed_ms : spec_float }.

Record world :=
  { argv : list string;
    init_ret : Z;                  (* what init_yolov8_model returns *)
    model_width : Z;               (* app_ctx.model_width *)
    model_height : Z;              (* app_ctx.model_height *)
    cap_opened : bool;             (* cap.isOpened() after open *)
    cap_width : spec_float;        (* cap.get(CAP_PROP_FRAME_WIDTH) *)
    cap_height : spec_float;
    cap_fps : spec_float;
    writer_opened : bool;          (* writer.isOpened() after construction *)
    stream : list frame_step }.    (* the frames until the capture runs dry *)

(** ** A state monad for [main] *)

(** The variable of [main] the claims follow, and the trace so far; every
    event is logged with the value [frame_count] has when it happens. *)
Record state := { frame_count : Z; trace : list (Z * event) }.

Definition M (A : Type) : Type := state -> A * state.

Definition pure {A} (a : A) : M A := fun st => (a, st).

Definition bind {A B} (m : M A) (k : A -> M B) : M B :=
  fun st => let (a, st') := m st in k a st'.

Notation "x <- m ;; k" := (bind m (fun x => k))
  (at level 61, m at next level, right associativity).
Notation "m ;; k" := (bind m (fun _ => k))
  (at level 61, right associativity).

Definition emit (e : event) : M unit :=
  fun st => (tt, {| frame_count := frame_count st;
                    trace := trace st ++ [(frame_count st, e)] |}).

Definition get_frame_count : M Z := fun st => (frame_count st, st).

(** [frame_count++] *)
Definition incr_frame_count : M unit :=
  fun st => (tt, {| frame_count := wrap_ll (frame_count st + 1);
                    trace := trace st |}).

Fixpoint for_each {A} (l : list A) (body : A -> M unit) : M unit :=
  match l with
  | [] => pure tt
  | a :: l' => body a ;; for_each l' body
  end.

Definition when (b : bool) (m : M unit) : M unit := if b then m else pure tt.

(** How a turn of the loop ends. *)
Inductive flow := Continue | Break.

(** ** Start-up helpers *)

Definition isdigit (c : ascii) : bool :=
  let n := Z.of_nat (nat_of_ascii c) in (48 <=? n) && (n <=? 57).

(** [atoi] of a string that is one digit. *)
Definition atoi1 (c : ascii) : Z := Z.of_nat (nat_of_ascii c) - 48.

Definition nth_arg (w : world) (n : nat) : string := nth n (argv w) EmptyString.

(** Lines 37-42. *)
Definition open_capture (video_source : string) : M unit :=
  match video_source with
  | String c EmptyString =>
      if isdigit c then emit (CapOpenDevice (atoi1 c))
      else emit (CapOpenFile video_source)
  | _ => emit (CapOpenFile video_source)
  end.

Section Pipeline.

(** The label table of postprocess.cc. *)
Variable coco_cls_to_name : Z -> string.

Variable w : world.

(** ** The stages of one turn, in the order of the source *)

(** Lines 81-94: the copy to draw on, and the detector's input. *)
Definition preprocess : M unit :=
  emit Clone ;;
  emit (Resize (model_width w) (model_height w)) ;;
  emit CvtColor.

(** Line 97; [src_image] describes the resized frame. *)
Definition infer : M unit :=
  emit (Inference (model_width w) (model_height w)
          (wrap_int (wrap_int (model_width w * model_height w) * 3))).

(** Lines 104-115. *)
Definition report_line (det : object_detect_result) : event :=
  Printf "  %s @ (%d %d %d %d) %.3f\n"
    [AStr (coco_cls_to_name (cls_id det));
     AInt (left (box det)); AInt (top (box det));
     AInt (right (box det)); AInt (bottom (box det));
     ADouble (prop det)].

Definition report (od_results : object_detect_result_list) : M unit :=
  n <- get_frame_count ;;
  emit (Printf "Frame %lld detections (%d objects):\n"
          [ALong n; AInt (count od_results)]) ;;
  for_each od_results (fun det => emit (report_line det)) ;;
  when (count od_results =? 0) (emit (Printf "  no objects detected\n" [])).

(** Lines 123-142, one detection. *)
Definition draw_detection (frame : Mat) (scale_x scale_y : spec_float)
  (det : object_detect_result) : M unit :=
  let b := map_box (box det) scale_x scale_y frame in
  emit (MapBox b) ;;
  emit (Rectangle (left b) (top b) (right b) (bottom b)) ;;
  emit (PutText "%s %.1f%%"
          [AStr (coco_cls_to_name (cls_id det));
           ADouble (F32.mul (prop det) (F32.of_int 100))]
          (left b) (top b - 10)).

(** Lines 119-142. *)
Definition draw_detections (frame : Mat)
  (od_results : object_detect_result_list) : M unit :=
  let scale_x := scale (cols frame) (model_width w) in
  let scale_y := scale (rows frame) (model_height w) in
  emit (Scales scale_x scale_y) ;;
  for_each od_results (draw_detection frame scale_x scale_y).

(** Lines 145-149. *)
Definition draw_fps (elapsed : spec_float) : M unit :=
  let fps := F64.div (F64.of_int 1000) elapsed in
  n <- get_frame_count ;;
  emit (PutText "FPS: %.1f  Frame: %lld" [ADouble fps; ALong n] 10 40).

(** Lines 152-154. *)
Definition save_frame : M unit := when (writer_opened w) (emit WriterWrite).

(** Lines 79-154: the turn of the loop for a frame that was delivered. *)
Definition process_frame (f : frame_step) : M flow :=
  incr_frame_count ;;
  preprocess ;;
  infer ;;
  if negb (infer_ret f =? 0) then
    n <- get_frame_count ;;
    emit (Printf "inference failed on frame %lld! ret=%d\n"
            [ALong n; AInt (infer_ret f)]) ;;
    pure Break
  else
    report (infer_out f) ;;
    draw_detections (decoded f) (infer_out f) ;;
    draw_fps (elapsed_ms f) ;;
    save_frame ;;
    pure Continue.

Definition end_of_video : M unit :=
  n <- get_frame_count ;;
  emit (Printf "End of video. Total processed frames: %lld\n" [ALong n]).

(** Lines 71-154, one turn of [while (true)].  The capture answers with
    the next frame of the stream, or with an empty one when it has run
    dry. *)
Definition turn (next : option frame_step) : M flow :=
  match next with
  | None =>
      emit (CapRead no_frame) ;; end_of_video ;; pure Break
  | Some f =>
      emit (CapRead (decoded f)) ;;
      if empty (decoded f) then end_of_video ;; pure Break
      else process_frame f
  end.

(** Lines 70-155. *)
Fixpoint loop (s : list frame_step) : M unit :=
  match s with
  | [] => turn None ;; pure tt
  | f :: s' =>
      fl <- turn (Some f) ;;
      match fl with
      | Break => pure tt
      | Continue => loop s'
      end
  end.

(** Lines 157-164. *)
Definition cleanup : M unit :=
  when (writer_opened w)
    (emit WriterRelease ;;
     emit (Printf "Video saved successfully: output.mp4\n" [])) ;;
  emit ReleaseModel ;;
  emit DeinitPostProcess ;;
  emit CapRelease.

Definition usage : M unit :=
  emit (Printf "Usage: %s <rknn_model> <video_source>\n" [AStr (nth_arg w 0)]) ;;
  emit (Printf "  video_source: camera id (e.g. 0) or video file path\n" []) ;;
  emit (Printf "  Output: saved to output.mp4 + print per-frame detections\n" []).

(** Lines 50-62. *)
Definition open_writer : M unit :=
  let frame_width := int_of_float (cap_width w) in
  let frame_height := int_of_float (cap_height w) in
  let fps_input :=
    if F64.leb (cap_fps w) (F64.of_int 0) then F64.of_int 30 else cap_fps w in
  emit (WriterOpen fps_input frame_width frame_height) ;;
  if negb (writer_opened w) then
    emit (Printf "Warning: VideoWriter failed to open, will not save video.\n" [])
  else
    emit (Printf "Saving inference result to output.mp4 (FPS: %.1f, Size: %dx%d)\n"
            [ADouble fps_input; AInt frame_width; AInt frame_height]).

(** [main], lines 13-167; the value is what it returns. *)
Definition main_body : M Z :=
  if negb (Z.of_nat (List.length (argv w)) =? 3) then
    usage ;; pure (-1)
  else
    emit InitPostProcess ;;
    emit (InitModel (nth_arg w 1)) ;;
    if negb (init_ret w =? 0) then
      emit (Printf "init_yolov8_model failed! ret=%d\n" [AInt (init_ret w)]) ;;
      emit DeinitPostProcess ;;
      pure (-1)
    else
      open_capture (nth_arg w 2) ;;
      if negb (cap_opened w) then
        emit (Printf "Failed to open video source: %s\n" [AStr (nth_arg w 2)]) ;;
        emit ReleaseModel ;;
        emit DeinitPostProcess ;;
        pure (-1)
      else
        open_writer ;;
        loop (stream w) ;;
        cleanup ;;
        pure 0.

Definition initial : state := {| frame_count := 0; trace := [] |}.

Definition main : Z * state := main_body initial.

End Pipeline.

(** ** Reading a trace *)

Definition events (t : list (Z * event)) : list event := map snd t.

(** The events a computation adds to the trace of the state it starts in. *)
Definition added {A} (m : M A) (st : state) : list event :=
  events (skipn (List.length (trace st)) (trace (snd (m st)))).

Definition count_if (p : event -> bool) (l : list event) : nat :=
  List.length (filter p l).

(** A printf with the format [fmt]. *)
Definition printed (fmt : string) (e : event) : bool :=
  match e with
  | Printf f _ => String.eqb f fmt
  | _ => false
  end.

Definition is_printf (e : event) : bool :=
  match e with Printf _ _ => true | _ => false end.

Definition is_read (e : event) : bool :=
  match e with CapRead _ => true | _ => false end.

(** A read that delivered a frame. *)
Definition acquired (e : event) : bool :=
  match e with CapRead m => negb (empty m) | _ => false end.

Definition is_inference (e : event) : bool :=
  match e with Inference _ _ _ => true | _ => false end.

Definition is_scales (e : event) : bool :=
  match e with Scales _ _ => true | _ => false end.

Definition is_map_box (e : event) : bool :=
  match e with MapBox _ => true | _ => false end.

Definition is_rectangle (e : event) : bool :=
  match e with Rectangle _ _ _ _ => true | _ => false end.

Definition is_writer_write (e : event) : bool :=
  match e with WriterWrite => true | _ => false end.

Definition fmt_header : string := "Frame %lld detections (%d objects):\n".
Definition fmt_line : string := "  %s @ (%d %d %d %d) %.3f\n".
Definition fmt_none : string := "  no objects detected\n".
Definition fmt_failed : string := "inference failed on frame %lld! ret=%d\n".
Definition fmt_warning : string :=
  "Warning: VideoWriter failed to open, will not save video.\n".

(** The components of the design the statements of the loop belong to. *)
Inductive stage :=
| FrameSource | Preprocessor | DetectorAdapter | CoordinateMapper
| OverlayRenderer | Reporter | OutputSink.

Definition stage_of (e : event) : option stage :=
  match e with
  | CapRead _ => Some FrameSource
  | Resize _ _ | CvtColor => Some Preprocessor
  | Inference _ _ _ => Some DetectorAdapter
  | Scales _ _ | MapBox _ => Some CoordinateMapper
  | Rectangle _ _ _ _ | PutText _ _ _ _ => Some OverlayRenderer
  | Printf f _ =>
      if String.eqb f fmt_header || String.eqb f fmt_line || String.eqb f fmt_none
      then Some Reporter else None
  | WriterWrite => Some OutputSink
  | _ => None
  end.

Definition stages (l : list event) : list stage :=
  flat_map (fun e => match stage_of e with Some s => [s] | None => [] end) l.

(** The place of a stage in the data flow the design document gives:
    Frame Source, Preprocessor, Detector Adapter, Coordinate Mapper,
    then Overlay Renderer and Reporter, then Output Sink. *)
Definition flow_rank (s : stage) : nat :=
  match s with
  | FrameSource => 0
  | Preprocessor => 1
  | DetectorAdapter => 2
  | CoordinateMapper => 3
  | OverlayRenderer => 4
  | Reporter => 4
  | OutputSink => 5
  end%nat.

Fixpoint nondecreasing (l : list nat) : bool :=
  match l with
  | a :: (b :: _) as l' => (a <=? b)%nat && nondecreasing l'
  | _ => true
  end.

Definition in_flow_order (l : list event) : bool :=
  nondecreasing (map flow_rank (stages l)).

(** Every event carries the number of frames acquired before it. *)
Fixpoint counter_tracks (n : Z) (t : list (Z * event)) : bool :=
  match t with
  | [] => true
  | (c, e) :: t' =>
      (c =? n) && counter_tracks (if acquired e then n + 1 else n) t'
  end.


(** ** The events of a turn, as lists *)

(** The state after the events [l], all at the present [frame_count]. *)
Definition log (st : state) (l : list event) : state :=
  {| frame_count := frame_count st;
     trace := trace st ++ map (pair (frame_count st)) l |}.

(** The state after [frame_count++]. *)
Definition bump (st : state) : state :=
  {| frame_count := wrap_ll (frame_count st + 1); trace := trace st |}.

Section TurnEvents.

Variable coco_cls_to_name : Z -> string.
Variable w : world.

Definition report_events (n : Z) (od_results : object_detect_result_list)
  : list event :=
  Printf fmt_header [ALong n; AInt (count od_results)]
  :: map (report_line coco_cls_to_name) od_results
  ++ (if count od_results =? 0 then [Printf fmt_none []] else []).

Definition detection_events (frame : Mat) (scale_x scale_y : spec_float)
  (det : object_detect_result) : list event :=
  let b := map_box (box det) scale_x scale_y frame in
  [MapBox b;
   Rectangle (left b) (top b) (right b) (bottom b);
   PutText "%s %.1f%%"
     [AStr (coco_cls_to_name (cls_id det));
      ADouble (F32.mul (prop det) (F32.of_int 100))]
     (left b) (top b - 10)].

Definition draw_events (frame : Mat) (od_results : object_detect_result_list)
  : list event :=
  let scale_x := scale (cols frame) (model_width w) in
  let scale_y := scale (rows frame) (model_height w) in
  Scales scale_x scale_y
  :: flat_map (detection_events frame scale_x scale_y) od_results.

Definition inference_events : list event :=
  [Clone; Resize (model_width w) (model_height w); CvtColor;
   Inference (model_width w) (model_height w)
     (wrap_int (wrap_int (model_width w * model_height w) * 3))].

Definition fps_event (n : Z) (elapsed : spec_float) : event :=
  PutText "FPS: %.1f  Frame: %lld"
    [ADouble (F64.div (F64.of_int 1000) elapsed); ALong n] 10 40.

(** The events of the turn for frame number [n] when the inference
    succeeds. *)
Definition frame_events (n : Z) (f : frame_step) : list event :=
  inference_events
  ++ report_events n (infer_out f)
  ++ draw_events (decoded f) (infer_out f)
  ++ [fps_event n (elapsed_ms f)]
  ++ (if writer_opened w then [WriterWrite] else []).

(** The events of the turn whose inference fails. *)
Definition failed_events (n : Z) (f : frame_step) : list event :=
  inference_events ++ [Printf fmt_failed [ALong n; AInt (infer_ret f)]].

Definition cleanup_events : list event :=
  (if writer_opened w
   then [WriterRelease; Printf "Video saved successfully: output.mp4\n" []]
   else [])
  ++ [ReleaseModel; DeinitPostProcess; CapRelease].

(** A frame was delivered and its inference succeeded. *)
Definition good_step (f : frame_step) : bool :=
  negb (empty (decoded f)) && (infer_ret f =? 0).

(** The start-up succeeds: the arguments, the model, the capture. *)
Definition starts_up : bool :=
  (Z.of_nat (List.length (argv w)) =? 3) && (init_ret w =? 0) && cap_opened w.

End TurnEvents.

(** ** The events of a run, as lists *)

Section RunEvents.

Variable coco_cls_to_name : Z -> string.
Variable w : world.

(** The event of lines 37-42. *)
Definition capture_event (video_source : string) : event :=
  match video_source with
  | String c EmptyString =>
      if isdigit c then CapOpenDevice (atoi1 c) else CapOpenFile video_source
  | _ => CapOpenFile video_source
  end.

Definition writer_events : list event :=
  let frame_width := int_of_float (cap_width w) in
  let frame_height := int_of_float (cap_height w) in
  let fps_input :=
    if F64.leb (cap_fps w) (F64.of_int 0) then F64.of_int 30 else cap_fps w in
  [WriterOpen fps_input frame_width frame_height;
   if negb (writer_opened w) then Printf fmt_warning []
   else Printf "Saving inference result to output.mp4 (FPS: %.1f, Size: %dx%d)\n"
          [ADouble fps_input; AInt frame_width; AInt frame_height]].

(** Lines 28-62 when nothing fails. *)
Definition startup_events : list event :=
  [InitPostProcess; InitModel (nth_arg w 1); capture_event (nth_arg w 2)]
  ++ writer_events.

(** The state after the turns of the frames [s], each delivered and
    inferred with success. *)
Fixpoint after_turns (st : state) (s : list frame_step) : state :=
  match s with
  | [] => st
  | f :: s' =>
      after_turns
        (log (bump (log st [CapRead (decoded f)]))
           (frame_events coco_cls_to_name w (wrap_ll (frame_count st + 1)) f))
        s'
  end.

(** The events of these turns, the first of them for frame [n + 1]. *)
Fixpoint turns_events (n : Z) (s : list frame_step) : list event :=
  match s with
  | [] => []
  | f :: s' =>
      CapRead (decoded f)
      :: frame_events coco_cls_to_name w (wrap_ll (n + 1)) f
      ++ turns_events (wrap_ll (n + 1)) s'
  end.

Definition end_events (n : Z) : list event :=
  [CapRead no_frame;
   Printf "End of video. Total processed frames: %lld\n" [ALong n]].

End RunEvents.

(** ** A small world to run the program in *)

(** Stands for the label table of postprocess.cc. *)
Definition demo_name (id : Z) : string :=
  if id =? 0 then "person"%string else "object"%string.

(** The box of the scenario of the design document, with confidence 0.5. *)
Definition demo_det : object_detect_result :=
  {| box := {| left := 100; top := 100; right := 200; bottom := 200 |};
     prop := S754_finite false 8388608 (-24);
     cls_id := 0 |}.

Definition demo_frame : Mat := {| cols := 1920; rows := 1080 |}.

(** A frame with one detection, one with none, one whose inference fails. *)
Definition step_one : frame_step :=
  {| decoded := demo_frame; infer_ret := 0; infer_out := [demo_det];
     elapsed_ms := F64.of_int 40 |}.

Definition step_none : frame_step :=
  {| decoded := demo_frame; infer_ret := 0; infer_out := [];
     elapsed_ms := F64.of_int 40 |}.

Definition step_failed : frame_step :=
  {| decoded := demo_frame; infer_ret := -1; infer_out := [];
     elapsed_ms := F64.of_int 40 |}.

Definition demo_world (writer : bool) (s : list frame_step) : world :=
  {| argv := ["video"%string; "yolov8.rknn"%string; "in.mp4"%string];
     init_ret := 0;
     model_width := 640;
     model_height := 640;
     cap_opened := true;
     cap_width := F64.of_int 1920;
     cap_height := F64.of_int 1080;
     cap_fps := F64.of_int 25;
     writer_opened := writer;
     stream := s |}.

(** The place of a stage in the order the source runs them: the report
    comes before the mapping, and the mapping of a detection is followed
    at once by its drawing. *)
Definition source_rank (s : stage) : nat :=
  match s with
  | FrameSource => 0
  | Preprocessor => 1
  | DetectorAdapter => 2
  | Reporter => 3
  | CoordinateMapper => 4
  | OverlayRenderer => 4
  | OutputSink => 5
  end%nat.

Definition in_source_order (l : list event) : bool :=
  nondecreasing (map source_rank (stages l)).

(** The counter of a state agrees with its trace. *)
Definition agrees (st : state) : Prop :=
  counter_tracks 0 (trace st) = true
  /\ frame_count st = Z.of_nat (count_if acquired (events (trace st))).

(** ** Any stream *)

(** The frames that are processed in full: those before the first one
    that is empty or whose inference fails. *)
Fixpoint good_prefix (s : list frame_step) : list frame_step :=
  match s with
  | [] => []
  | f :: s' => if good_step f then f :: good_prefix s' else []
  end.

(** The frame the loop stops at, when it is not the end of the stream. *)
Fixpoint first_bad (s : list frame_step) : option frame_step :=
  match s with
  | [] => None
  | f :: s' => if good_step f then first_bad s' else Some f
  end.

(** [frame_count] after [k] more increments. *)
Fixpoint advance (n : Z) (k : nat) : Z :=
  match k with
  | O => n
  | S k' => advance (wrap_ll (n + 1)) k'
  end.

Section AnyRun.

Variable coco_cls_to_name : Z -> string.
Variable w : world.

(** The events of the turn that leaves the loop, [n] frames counted. *)
Definition last_turn_events (n : Z) (stop : option frame_step) : list event :=
  match stop with
  | None => end_events n
  | Some f =>
      if empty (decoded f) then
        [CapRead (decoded f);
         Printf "End of video. Total processed frames: %lld\n" [ALong n]]
      else CapRead (decoded f) :: failed_events w (wrap_ll (n + 1)) f
  end.

Definition usage_events : list event :=
  [Printf "Usage: %s <rknn_model> <video_source>\n" [AStr (nth_arg w 0)];
   Printf "  video_source: camera id (e.g. 0) or video file path\n" [];
   Printf "  Output: saved to output.mp4 + print per-frame detections\n" []].

Definition init_failed_events : list event :=
  [InitPostProcess; InitModel (nth_arg w 1);
   Printf "init_yolov8_model failed! ret=%d\n" [AInt (init_ret w)];
   DeinitPostProcess].

Definition open_failed_events : list event :=
  [InitPostProcess; InitModel (nth_arg w 1); capture_event (nth_arg w 2);
   Printf "Failed to open video source: %s\n" [AStr (nth_arg w 2)];
   ReleaseModel; DeinitPostProcess].

(** The events of the loop, whatever the stream. *)
Definition loop_events (n : Z) (s : list frame_step) : list event :=
  turns_events coco_cls_to_name w n (good_prefix s)
  ++ last_turn_events (advance n (List.length (good_prefix s))) (first_bad s).

(** The events of a run, whatever the world. *)
Definition run_events : list event :=
  if negb (Z.of_nat (List.length (argv w)) =? 3) then usage_events
  else if negb (init_ret w =? 0) then init_failed_events
  else if negb (cap_opened w) then open_failed_events
  else startup_events w ++ loop_events 0 (stream w) ++ cleanup_events w.

End AnyRun.

(** The events as they are numbered: the first of [l] has number [n + 1]
    on the counter. *)
Fixpoint numbered {A} (n : Z) (l : list A) : list (Z * A) :=
  match l with
  | [] => []
  | a :: l' => (wrap_ll (n + 1), a) :: numbered (wrap_ll (n + 1)) l'
  end.

(** An event that belongs to the loop. *)
Definition in_loop (e : event) : bool :=
  match e with
  | Printf _ _ | CapRead _ | Clone | Resize _ _ | CvtColor | Inference _ _ _
  | Scales _ _ | MapBox _ | Rectangle _ _ _ _ | PutText _ _ _ _ | WriterWrite =>
      true
  | _ => false
  end.

Definition is_event (e0 e : event) : bool :=
  match e0, e with
  | InitPostProcess, InitPostProcess => true
  | DeinitPostProcess, DeinitPostProcess => true
  | ReleaseModel, ReleaseModel => true
  | CapRelease, CapRelease => true
  | WriterRelease, WriterRelease => true
  | _, _ => false
  end.

Definition is_init_model (e : event) : bool :=
  match e with InitModel _ => true | _ => false end.

Definition is_cap_open (e : event) : bool :=
  match e with CapOpenDevice _ | CapOpenFile _ => true | _ => false end.

Definition is_writer_open (e : event) : bool :=
  match e with WriterOpen _ _ _ => true | _ => false end.

Definition is_put_text (fmt : string) (e : event) : bool :=
  match e with PutText f _ _ _ => String.eqb f fmt | _ => false end.

(** A detection in the top rows of the model's input. *)
Definition demo_det_top : object_detect_result :=
  {| box := {| left := 5; top := 2; right := 50; bottom := 40 |};
     prop := S754_finite false 8388608 (-24);
     cls_id := 0 |}.

Definition fmt_label : string := "%s %.1f%%".

(** The world [w] with another stream. *)
Definition with_stream (w : world) (s : list frame_step) : world :=
  {| argv := argv w;
     init_ret := init_ret w;
     model_width := model_width w;
     model_height := model_height w;
     cap_opened := cap_opened w;
     cap_width := cap_width w;
     cap_height := cap_height w;
     cap_fps := cap_fps w;
     writer_opened := writer_opened w;
     stream := s |}.

(** The frames of a stream with their numbers, from 1. *)
Definition with_numbers (s : list frame_step) : list (Z * frame_step) :=
  combine (map Z.of_nat (seq 1 (List.length s))) s.

Definition fmt_fps : string := "FPS: %.1f  Frame: %lld".
Definition fmt_end : string := "End of video. Total processed frames: %lld\n".

Definition is_clone (e : event) : bool :=
  match e with Clone => true | _ => false end.

Definition is_resize (e : event) : bool :=
  match e with Resize _ _ => true | _ => false end.

(** A float that is a number and not an infinity. *)
Definition is_finite (f : spec_float) : bool :=
  match f with
  | S754_zero _ | S754_finite _ _ _ => true
  | S754_infinity _ | S754_nan => false
  end.

(** ** Rounding, as arithmetic on integers *)

(** [m / 2^n] rounded to the nearest integer, ties to the even one. *)
Definition rne (m n : Z) : Z :=
  let q := m / 2 ^ n in
  match 2 * (m mod 2 ^ n) ?= 2 ^ n with
  | Lt => q
  | Eq => if Z.even q then q else q + 1
  | Gt => q + 1
  end.

(** [v] rounded to 24 significant bits, and to a multiple of [2^lo] when
    it is small. *)
Definition Rnd (lo v : Z) : Z :=
  let u := Z.max (Z.log2 v - 23) lo in rne v u * 2 ^ u.

(** The integer part of [|x| * s] as the two roundings leave it, for the
    scale [ms * 2^es]. *)
Definition scaled_magnitude (ms : positive) (es : Z) (a : Z) : Z :=
  let ks := Z.max 0 (- es) in
  Rnd ks (Rnd 0 (a * 2 ^ 149) * (Zpos ms * 2 ^ (es + ks))) / 2 ^ (149 + ks).

(** * Properties *)

Section MonadFacts.

Lemma log_nil st : log st [] = st.
Proof. destruct st; unfold log; simpl. now rewrite app_nil_r. Qed.

Lemma log_log st a b : log (log st a) b = log st (a ++ b).
Proof. unfold log; simpl. now rewrite map_app, app_assoc. Qed.

Lemma emit_log e st : emit e st = (tt, log st [e]).
Proof. reflexivity. Qed.

Lemma frame_count_log st l : frame_count (log st l) = frame_count st.
Proof. reflexivity. Qed.

Lemma for_each_emit {A} (g : A -> event) (l : list A) (st : state) :
  for_each l (fun a => emit (g a)) st = (tt, log st (map g l)).
Proof.
  revert st; induction l as [|a l IH]; intros st; simpl.
  - now rewrite log_nil.
  - unfold bind. rewrite emit_log, IH, log_log. reflexivity.
Qed.

Lemma for_each_log {A} (body : A -> M unit) (g : A -> list event) (l : list A) :
  (forall a st, body a st = (tt, log st (g a))) ->
  forall st, for_each l body st = (tt, log st (flat_map g l)).
Proof.
  intros Hb; induction l as [|a l IH]; intros st; simpl.
  - now rewrite log_nil.
  - unfold bind. rewrite Hb, IH, log_log. reflexivity.
Qed.

End MonadFacts.

Section PipelineFacts.

Variable name : Z -> string.
Variable w : world.

Lemma report_log dets st :
  report name dets st = (tt, log st (report_events name (frame_count st) dets)).
Proof.
  unfold report, report_events, bind, get_frame_count.
  rewrite emit_log, for_each_emit, log_log. simpl.
  destruct (count dets =? 0); unfold when.
  - rewrite emit_log, log_log. reflexivity.
  - unfold pure. simpl. now rewrite app_nil_r.
Qed.

Lemma draw_detection_log frame sx sy det st :
  draw_detection name frame sx sy det st
  = (tt, log st (detection_events name frame sx sy det)).
Proof.
  unfold draw_detection, bind. rewrite !emit_log, !log_log. reflexivity.
Qed.

Lemma draw_detections_log frame dets st :
  draw_detections name w frame dets st
  = (tt, log st (draw_events name w frame dets)).
Proof.
  unfold draw_detections, draw_events, bind. rewrite emit_log.
  rewrite (for_each_log _ _ _ (draw_detection_log frame _ _)), log_log.
  reflexivity.
Qed.

Lemma save_frame_log st :
  save_frame w st = (tt, log st (if writer_opened w then [WriterWrite] else [])).
Proof.
  unfold save_frame, when. destruct (writer_opened w).
  - apply emit_log.
  - unfold pure. now rewrite log_nil.
Qed.

Lemma process_frame_good f st :
  infer_ret f = 0 ->
  process_frame name w f st
  = (Continue,
     log (bump st) (frame_events name w (wrap_ll (frame_count st + 1)) f)).
Proof.
  intros Hret. unfold process_frame. rewrite Hret. simpl negb. cbv iota.
  unfold bind at 1. unfold incr_frame_count. fold (bump st).
  unfold bind at 1. unfold preprocess, infer.
  unfold bind. rewrite !emit_log, !log_log.
  rewrite report_log, draw_detections_log.
  unfold draw_fps, bind, get_frame_count. rewrite emit_log, save_frame_log.
  rewrite !log_log. unfold pure. unfold frame_events, inference_events.
  reflexivity.
Qed.

Lemma process_frame_failed f st :
  infer_ret f <> 0 ->
  process_frame name w f st
  = (Break,
     log (bump st) (failed_events w (wrap_ll (frame_count st + 1)) f)).
Proof.
  intros Hret. unfold process_frame.
  apply Z.eqb_neq in Hret. rewrite Hret. simpl negb. cbv iota.
  unfold bind at 1. unfold incr_frame_count. fold (bump st).
  unfold preprocess, infer, bind, get_frame_count.
  rewrite !emit_log, !log_log. reflexivity.
Qed.

End PipelineFacts.

Section LoopFacts.

Variable name : Z -> string.
Variable w : world.

Lemma end_of_video_log st :
  end_of_video st
  = (tt, log st [Printf "End of video. Total processed frames: %lld\n"
                   [ALong (frame_count st)]]).
Proof. reflexivity. Qed.

Lemma turn_none st :
  turn name w None st = (Break, log st (end_events (frame_count st))).
Proof.
  unfold turn, bind. rewrite emit_log, end_of_video_log, log_log. reflexivity.
Qed.

Lemma turn_no_frame f st :
  empty (decoded f) = true ->
  turn name w (Some f) st
  = (Break, log st [CapRead (decoded f);
                    Printf "End of video. Total processed frames: %lld\n"
                      [ALong (frame_count st)]]).
Proof.
  intros He. unfold turn, bind.
  rewrite emit_log, He, end_of_video_log, log_log. reflexivity.
Qed.

Lemma turn_failed f st :
  empty (decoded f) = false -> infer_ret f <> 0 ->
  turn name w (Some f) st
  = (Break, log (bump (log st [CapRead (decoded f)]))
              (failed_events w (wrap_ll (frame_count st + 1)) f)).
Proof.
  intros He Hr. unfold turn, bind. rewrite emit_log, He.
  exact (process_frame_failed name w f (log st [CapRead (decoded f)]) Hr).
Qed.

Lemma turn_good f st :
  empty (decoded f) = false -> infer_ret f = 0 ->
  turn name w (Some f) st
  = (Continue, log (bump (log st [CapRead (decoded f)]))
                 (frame_events name w (wrap_ll (frame_count st + 1)) f)).
Proof.
  intros He Hr. unfold turn, bind. rewrite emit_log, He.
  exact (process_frame_good name w f (log st [CapRead (decoded f)]) Hr).
Qed.

Lemma loop_nil st :
  loop name w [] st = (tt, log st (end_events (frame_count st))).
Proof. cbn [loop]. unfold bind. now rewrite turn_none. Qed.

Lemma loop_no_frame f s st :
  empty (decoded f) = true ->
  loop name w (f :: s) st
  = (tt, log st [CapRead (decoded f);
                 Printf "End of video. Total processed frames: %lld\n"
                   [ALong (frame_count st)]]).
Proof. intros He. cbn [loop]. unfold bind. now rewrite turn_no_frame. Qed.

Lemma loop_failed f s st :
  empty (decoded f) = false -> infer_ret f <> 0 ->
  loop name w (f :: s) st
  = (tt, log (bump (log st [CapRead (decoded f)]))
           (failed_events w (wrap_ll (frame_count st + 1)) f)).
Proof. intros He Hr. cbn [loop]. unfold bind. now rewrite turn_failed. Qed.

Lemma loop_good good rest st :
  forallb good_step good = true ->
  loop name w (good ++ rest) st = loop name w rest (after_turns name w st good).
Proof.
  revert st; induction good as [|f good IH]; intros st Hg; [reflexivity|].
  simpl in Hg. apply andb_prop in Hg as [Hf Hg].
  unfold good_step in Hf. apply andb_prop in Hf as [He Hr].
  apply negb_true_iff in He. apply Z.eqb_eq in Hr.
  cbn [app loop]. unfold bind. rewrite (turn_good f st He Hr).
  rewrite IH by exact Hg. reflexivity.
Qed.

Lemma cleanup_log st : cleanup w st = (tt, log st (cleanup_events w)).
Proof.
  unfold cleanup, cleanup_events, when, bind.
  destruct (writer_opened w).
  - rewrite !emit_log, !log_log. reflexivity.
  - unfold pure. rewrite !emit_log, !log_log. reflexivity.
Qed.

Lemma open_capture_log src st :
  open_capture src st = (tt, log st [capture_event src]).
Proof.
  unfold open_capture, capture_event.
  destruct src as [|c [|c' src]]; try apply emit_log.
  destruct (isdigit c); apply emit_log.
Qed.

Lemma open_writer_log st : open_writer w st = (tt, log st (writer_events w)).
Proof.
  unfold open_writer, writer_events, bind. rewrite emit_log.
  destruct (negb (writer_opened w)); rewrite emit_log, log_log; reflexivity.
Qed.

(** A run whose start-up succeeds: the loop, then the clean-up, then 0. *)
Lemma main_started :
  starts_up w = true ->
  main name w
  = (0, log (snd (loop name w (stream w) (log initial (startup_events w))))
          (cleanup_events w)).
Proof.
  unfold starts_up. intros H.
  apply andb_prop in H as [H Hc]. apply andb_prop in H as [Ha Hi].
  unfold main, main_body. rewrite Ha, Hi, Hc. cbn [negb].
  unfold bind. rewrite !emit_log, open_capture_log, open_writer_log, !log_log.
  destruct (loop name w (stream w) _) as [[] st'].
  rewrite cleanup_log. reflexivity.
Qed.

Lemma events_log st l : events (trace (log st l)) = events (trace st) ++ l.
Proof.
  unfold events, log; simpl. rewrite map_app, map_map. simpl.
  now rewrite map_id.
Qed.

Lemma events_after_turns s st :
  events (trace (after_turns name w st s))
  = events (trace st) ++ turns_events name w (frame_count st) s.
Proof.
  revert st; induction s as [|f s IH]; intros st; cbn [after_turns turns_events].
  - now rewrite app_nil_r.
  - rewrite IH, events_log.
    change (trace (bump (log st [CapRead (decoded f)])))
      with (trace (log st [CapRead (decoded f)])).
    rewrite events_log.
    change (frame_count (log (bump (log st [CapRead (decoded f)])) _))
      with (wrap_ll (frame_count st + 1)).
    rewrite <- !app_assoc. reflexivity.
Qed.

End LoopFacts.

Section Counting.

Lemma count_if_app p a b :
  count_if p (a ++ b) = (count_if p a + count_if p b)%nat.
Proof. unfold count_if. now rewrite filter_app, length_app. Qed.

Lemma count_if_cons p e l :
  count_if p (e :: l) = ((if p e then 1 else 0) + count_if p l)%nat.
Proof. unfold count_if. simpl. now destruct (p e). Qed.

Lemma count_if_map {A} p (g : A -> event) (l : list A) (c : bool) :
  (forall a, p (g a) = c) ->
  count_if p (map g l) = if c then List.length l else 0%nat.
Proof.
  intros H. induction l as [|a l IH]; simpl.
  - now destruct c.
  - rewrite count_if_cons, IH, H. now destruct c.
Qed.

Lemma count_if_flat_map {A} p (g : A -> list event) (l : list A) (k : nat) :
  (forall a, count_if p (g a) = k) ->
  count_if p (flat_map g l) = (k * List.length l)%nat.
Proof.
  intros H. induction l as [|a l IH]; simpl.
  - now rewrite Nat.mul_0_r.
  - rewrite count_if_app, IH, H. lia.
Qed.

Lemma count_if_zero p l : count_if p l = 0%nat -> filter p l = [].
Proof. unfold count_if. now destruct (filter p l). Qed.

End Counting.

Section CountingTurns.

Variable name : Z -> string.
Variable w : world.

Lemma count_if_report p n dets (c : bool) :
  (forall det, p (report_line name det) = c) ->
  count_if p (report_events name n dets)
  = ((if p (Printf fmt_header [ALong n; AInt (count dets)]) then 1 else 0)
     + (if c then List.length dets else 0)
     + (if (count dets =? 0)%Z then if p (Printf fmt_none []) then 1 else 0 else 0))%nat.
Proof.
  intros H. unfold report_events.
  rewrite count_if_cons, count_if_app, (count_if_map _ _ _ _ H).
  destruct (count dets =? 0).
  - rewrite count_if_cons. change (count_if p []) with 0%nat. lia.
  - change (count_if p []) with 0%nat. lia.
Qed.

Lemma count_if_draw p frame dets (k : nat) :
  (forall sx sy det, count_if p (detection_events name frame sx sy det) = k) ->
  count_if p (draw_events name w frame dets)
  = ((if p (Scales (scale (cols frame) (model_width w))
                   (scale (rows frame) (model_height w))) then 1 else 0)
     + k * List.length dets)%nat.
Proof.
  intros H. unfold draw_events.
  now rewrite count_if_cons, (count_if_flat_map _ _ _ _ (H _ _)).
Qed.

Lemma count_if_frame_events p n f :
  count_if p (frame_events name w n f)
  = (count_if p (inference_events w)
     + count_if p (report_events name n (infer_out f))
     + count_if p (draw_events name w (decoded f) (infer_out f))
     + (if p (fps_event n (elapsed_ms f)) then 1 else 0)
     + (if writer_opened w then if p WriterWrite then 1 else 0 else 0))%nat.
Proof.
  unfold frame_events. rewrite !count_if_app, count_if_cons.
  destruct (writer_opened w).
  - rewrite count_if_cons. change (count_if p []) with 0%nat. lia.
  - change (count_if p []) with 0%nat. lia.
Qed.

(** A predicate that holds of [k] events of every good turn. *)
Lemma count_if_turns p (k : nat) s n :
  (forall m f, count_if p (CapRead (decoded f) :: frame_events name w m f) = k) ->
  count_if p (turns_events name w n s) = (k * List.length s)%nat.
Proof.
  intros H. revert n; induction s as [|f s IH]; intros n; cbn [turns_events].
  - unfold count_if. simpl. lia.
  - change (CapRead (decoded f) :: frame_events name w (wrap_ll (n + 1)) f
            ++ turns_events name w (wrap_ll (n + 1)) s)
      with ((CapRead (decoded f) :: frame_events name w (wrap_ll (n + 1)) f)
            ++ turns_events name w (wrap_ll (n + 1)) s).
    rewrite count_if_app, H, IH. simpl. lia.
Qed.

Lemma count_inference_frame n f :
  count_if is_inference (frame_events name w n f) = 1%nat.
Proof.
  rewrite count_if_frame_events.
  rewrite (count_if_report _ _ _ false) by reflexivity.
  rewrite (count_if_draw _ _ _ 0) by reflexivity.
  destruct (count (infer_out f) =? 0), (writer_opened w); reflexivity.
Qed.



Lemma count_read_frame n f :
  count_if is_read (frame_events name w n f) = 0%nat.
Proof.
  rewrite count_if_frame_events.
  rewrite (count_if_report _ _ _ false) by reflexivity.
  rewrite (count_if_draw _ _ _ 0) by reflexivity.
  destruct (count (infer_out f) =? 0), (writer_opened w); reflexivity.
Qed.



End CountingTurns.

Section Added.

Lemma added_trace {A} (m : M A) st t :
  trace (snd (m st)) = trace st ++ t -> added m st = events t.
Proof.
  intros H. unfold added. rewrite H, skipn_app, skipn_all, Nat.sub_diag.
  reflexivity.
Qed.

Lemma events_pair n l : events (map (pair n) l) = l.
Proof. unfold events. rewrite map_map. apply map_id. Qed.

Lemma added_process_frame_good name w f st :
  infer_ret f = 0 ->
  added (process_frame name w f) st
  = frame_events name w (wrap_ll (frame_count st + 1)) f.
Proof.
  intros Hr. rewrite (added_trace _ _ (map (pair (wrap_ll (frame_count st + 1)))
    (frame_events name w (wrap_ll (frame_count st + 1)) f))).
  - apply events_pair.
  - now rewrite (process_frame_good name w f st Hr).
Qed.

Lemma added_turn_good name w f st :
  empty (decoded f) = false -> infer_ret f = 0 ->
  added (turn name w (Some f)) st
  = CapRead (decoded f) :: frame_events name w (wrap_ll (frame_count st + 1)) f.
Proof.
  intros He Hr.
  rewrite (added_trace _ _ ((frame_count st, CapRead (decoded f))
    :: map (pair (wrap_ll (frame_count st + 1)))
         (frame_events name w (wrap_ll (frame_count st + 1)) f))).
  - cbn [events map snd]. f_equal. apply events_pair.
  - rewrite (turn_good name w f st He Hr). cbn [snd log bump trace frame_count map].
    now rewrite <- app_assoc.
Qed.

End Added.

(** ** The report of a frame *)

(** C5.  A frame for which the detector succeeds with an empty list: the
    turn goes on to the next frame, its events hold the line
    "no objects detected" once, no rectangle, and no failure message. *)
Theorem empty_detections_frame name w f st :
  infer_ret f = 0 -> infer_out f = [] ->
  fst (process_frame name w f st) = Continue
  /\ count_if (printed "  no objects detected\n")
       (added (process_frame name w f) st) = 1%nat
  /\ count_if is_rectangle (added (process_frame name w f) st) = 0%nat
  /\ count_if (printed "inference failed on frame %lld! ret=%d\n")
       (added (process_frame name w f) st) = 0%nat.
Proof.
  intros Hr Hd. rewrite (added_process_frame_good name w f st Hr).
  rewrite (process_frame_good name w f st Hr). split; [reflexivity|].
  rewrite !count_if_frame_events.
  rewrite !(count_if_report name _ _ _ false) by reflexivity.
  rewrite !(count_if_draw name w _ _ _ 0) by reflexivity.
  rewrite Hd. destruct (writer_opened w); repeat split; reflexivity.
Qed.

Lemma empty_detections_frame_witness :
  fst (process_frame demo_name (demo_world true []) step_none initial) = Continue
  /\ count_if (printed "  no objects detected\n")
       (added (process_frame demo_name (demo_world true []) step_none) initial)
     = 1%nat
  /\ count_if is_rectangle
       (added (process_frame demo_name (demo_world true []) step_none) initial)
     = 0%nat
  /\ count_if (printed "inference failed on frame %lld! ret=%d\n")
       (added (process_frame demo_name (demo_world true []) step_none) initial)
     = 0%nat.
Proof.
  apply (empty_detections_frame demo_name (demo_world true []) step_none initial);
    reflexivity.
Defined.

Lemma filter_printf_frame name w n f :
  filter is_printf (frame_events name w n f)
  = report_events name n (infer_out f).
Proof.
  unfold frame_events. rewrite !filter_app.
  assert (Hrep : forall dets,
    filter is_printf (report_events name n dets) = report_events name n dets).
  { intros dets. unfold report_events. cbn [filter is_printf].
    f_equal. rewrite filter_app. f_equal.
    - induction dets as [|d dets IH]; [reflexivity|]. cbn. now rewrite IH.
    - now destruct (count dets =? 0). }
  assert (Hdraw : filter is_printf (draw_events name w (decoded f) (infer_out f)) = []).
  { apply count_if_zero. now rewrite (count_if_draw name w _ _ _ 0). }
  rewrite Hrep, Hdraw.
  cbn. destruct (writer_opened w); cbn; now rewrite app_nil_r.
Qed.

(** C6.  A frame with detections: what the turn prints is the heading and
    then one line for every detection, in the order of the list, with the
    class name, the four edges of the box as the detector gave them and
    the confidence under the conversion [%.3f]. *)
Theorem report_lines_in_order name w f st :
  infer_ret f = 0 -> infer_out f <> [] ->
  filter is_printf (added (process_frame name w f) st)
  = Printf "Frame %lld detections (%d objects):\n"
      [ALong (wrap_ll (frame_count st + 1)); AInt (count (infer_out f))]
    :: map (fun det =>
              Printf "  %s @ (%d %d %d %d) %.3f\n"
                [AStr (name (cls_id det));
                 AInt (left (box det)); AInt (top (box det));
                 AInt (right (box det)); AInt (bottom (box det));
                 ADouble (prop det)])
         (infer_out f).
Proof.
  intros Hr Hd. rewrite (added_process_frame_good name w f st Hr).
  rewrite filter_printf_frame. unfold report_events.
  destruct (infer_out f) as [|d dets]; [contradiction|].
  replace (count (d :: dets) =? 0) with false.
  - now rewrite app_nil_r.
  - symmetry. apply Z.eqb_neq. unfold count. cbn [List.length]. lia.
Qed.

Lemma report_lines_in_order_witness :
  filter is_printf
    (added (process_frame demo_name (demo_world true []) step_one) initial)
  = [Printf "Frame %lld detections (%d objects):\n" [ALong 1; AInt 1];
     Printf "  %s @ (%d %d %d %d) %.3f\n"
       [AStr "person"; AInt 100; AInt 100; AInt 200; AInt 200;
        ADouble (S754_finite false 8388608 (-24))]].
Proof.
  apply (report_lines_in_order demo_name (demo_world true []) step_one initial).
  - reflexivity.
  - discriminate.
Defined.

(** ** Whole runs *)

Section Runs.

Variable name : Z -> string.
Variable w : world.

Lemma starts_up_intro :
  Z.of_nat (List.length (argv w)) = 3 -> init_ret w = 0 -> cap_opened w = true ->
  starts_up w = true.
Proof.
  intros Ha Hi Hc. unfold starts_up. rewrite Ha, Hi, Hc. reflexivity.
Qed.


(** The events of a run whose inference fails after the frames [good]. *)
Lemma events_failed_run good bad rest :
  starts_up w = true -> stream w = good ++ bad :: rest ->
  forallb good_step good = true ->
  empty (decoded bad) = false -> infer_ret bad <> 0 ->
  exists n,
    main name w
    = (0, log (log (bump (log (after_turns name w (log initial (startup_events w)) good)
                            [CapRead (decoded bad)]))
                 (failed_events w n bad))
            (cleanup_events w)).
Proof.
  intros Hs Hst Hg He Hr. rewrite (main_started name w Hs), Hst.
  rewrite (loop_good name w _ _ _ Hg), (loop_failed name w _ _ _ He Hr).
  eexists. reflexivity.
Qed.

End Runs.



(** C1.  The inference fails on the frame after [good]: no further frame
    is read, the failure is reported, the writer (when open), the model,
    the tables and the capture are released -- and [main] returns 0, as it
    does at the end of the stream. *)
Theorem inference_failure_run name w good bad rest :
  Z.of_nat (List.length (argv w)) = 3 -> init_ret w = 0 -> cap_opened w = true ->
  stream w = good ++ bad :: rest ->
  forallb good_step good = true ->
  empty (decoded bad) = false -> infer_ret bad <> 0 ->
  let ev := events (trace (snd (main name w))) in
  fst (main name w) = 0
  /\ count_if is_read ev = S (List.length good)
  /\ count_if is_inference ev = S (List.length good)
  /\ exists before n,
       ev = before
            ++ [Printf "inference failed on frame %lld! ret=%d\n"
                  [ALong n; AInt (infer_ret bad)]]
            ++ (if writer_opened w
                then [WriterRelease;
                      Printf "Video saved successfully: output.mp4\n" []]
                else [])
            ++ [ReleaseModel; DeinitPostProcess; CapRelease].
Proof.
  intros Ha Hi Hc Hst Hg He Hr ev. subst ev.
  pose proof (starts_up_intro w Ha Hi Hc) as Hs.
  destruct (events_failed_run name w good bad rest Hs Hst Hg He Hr) as [n ->].
  cbn [fst snd]. split; [reflexivity|].
  rewrite !events_log.
  change (trace (bump ?s)) with (trace s).
  rewrite events_log, events_after_turns, events_log.
  change (events (trace initial)) with (@nil event). cbn [app].
  assert (Hcap : forall p, (forall s, p (CapOpenFile s) = false) ->
                 (forall z, p (CapOpenDevice z) = false) ->
                 p (capture_event (nth_arg w 2)) = false).
  { intros p Hf Hd. unfold capture_event.
    destruct (nth_arg w 2) as [|c [|c' s]]; auto. destruct (isdigit c); auto. }
  assert (Hwr : forall p, (forall a b c, p (WriterOpen a b c) = false) ->
                 (forall a b, p (Printf a b) = false) ->
                 count_if p (writer_events w) = 0%nat).
  { intros p H1 H2. unfold writer_events.
    rewrite !count_if_cons, H1. destruct (negb (writer_opened w)); now rewrite H2. }
  assert (Hcl : forall p, p WriterRelease = false ->
                 (forall a b, p (Printf a b) = false) ->
                 p ReleaseModel = false -> p DeinitPostProcess = false ->
                 p CapRelease = false ->
                 count_if p (cleanup_events w) = 0%nat).
  { intros p H1 H2 H3 H4 H5. unfold cleanup_events.
    destruct (writer_opened w); cbn [app];
      rewrite !count_if_cons, ?H1, ?H2, ?H3, ?H4, ?H5; reflexivity. }
  unfold startup_events, failed_events, inference_events.
  repeat split.
  - repeat first [rewrite count_if_cons | rewrite count_if_app].
    rewrite Hwr, Hcl by reflexivity.
    rewrite (count_if_turns name w _ 1)
      by (intros; rewrite count_if_cons, count_read_frame; reflexivity).
    rewrite Hcap by reflexivity. cbn. lia.
  - repeat first [rewrite count_if_cons | rewrite count_if_app].
    rewrite Hwr, Hcl by reflexivity.
    rewrite (count_if_turns name w _ 1)
      by (intros; rewrite count_if_cons, count_inference_frame; reflexivity).
    rewrite Hcap by reflexivity. cbn. lia.
  - unfold cleanup_events.
    match goal with
    | |- exists _ _, (?X ++ ?I ++ [_]) ++ _ = _ => exists (X ++ I), n
    end.
    rewrite <- !app_assoc. reflexivity.
Qed.

Lemma inference_failure_run_witness :
  let w := demo_world true [step_one; step_failed; step_one] in
  let ev := events (trace (snd (main demo_name w))) in
  fst (main demo_name w) = 0
  /\ count_if is_read ev = 2%nat
  /\ count_if is_inference ev = 2%nat
  /\ exists before n,
       ev = before
            ++ [Printf "inference failed on frame %lld! ret=%d\n"
                  [ALong n; AInt (-1)]]
            ++ [WriterRelease;
                Printf "Video saved successfully: output.mp4\n" []]
            ++ [ReleaseModel; DeinitPostProcess; CapRelease].
Proof.
  intros w.
  apply (inference_failure_run demo_name w [step_one] step_failed [step_one]);
    try reflexivity.
  discriminate.
Defined.

(** ** The coordinate mapping *)

Lemma added_draw_detections name w frame dets st :
  added (draw_detections name w frame dets) st = draw_events name w frame dets.
Proof.
  rewrite (added_trace _ _ (map (pair (frame_count st))
                              (draw_events name w frame dets))).
  - apply events_pair.
  - now rewrite draw_detections_log.
Qed.

Lemma filter_flat_map_one {A} p (g : A -> list event) (h : A -> event) l :
  (forall a, filter p (g a) = [h a]) -> filter p (flat_map g l) = map h l.
Proof.
  intros H. induction l as [|a l IH]; [reflexivity|].
  cbn [flat_map map]. now rewrite filter_app, H, IH.
Qed.

Lemma filter_flat_map_none {A} p (g : A -> list event) l :
  (forall a, filter p (g a) = []) -> filter p (flat_map g l) = [].
Proof.
  intros H. induction l as [|a l IH]; [reflexivity|].
  cbn [flat_map]. now rewrite filter_app, H, IH.
Qed.

(** C2.  The overlay of a frame computes the two scales once, as the
    quotient of the frame's size by the model's; the rectangle of every
    detection has each edge multiplied by the scale of its axis, cut to
    an [int] and only then limited to the frame; the box of the scenario
    comes out as (300,168,600,337), before the limiting and after it.
    The products are taken to fit an [int], as the language asks of the
    conversion. *)
Theorem coordinate_mapping name w frame dets st :
  forallb (fun det => box_in_range (box det)
                        (scale (cols frame) (model_width w))
                        (scale (rows frame) (model_height w))) dets = true ->
  let sx := F32.div (F32.of_int (cols frame)) (F32.of_int (model_width w)) in
  let sy := F32.div (F32.of_int (rows frame)) (F32.of_int (model_height w)) in
  let edge v s dim :=
    Z.max 0 (Z.min (int_of_float (F32.mul (F32.of_int v) s)) (dim - 1)) in
  let ev := added (draw_detections name w frame dets) st in
  let scenario := {| left := 100; top := 100; right := 200; bottom := 200 |} in
  filter is_scales ev = [Scales sx sy]
  /\ filter is_rectangle ev
     = map (fun det =>
              Rectangle (edge (left (box det)) sx (cols frame))
                        (edge (top (box det)) sy (rows frame))
                        (edge (right (box det)) sx (cols frame))
                        (edge (bottom (box det)) sy (rows frame)))
         dets
  /\ scale_box scenario (scale 1920 640) (scale 1080 640)
     = {| left := 300; top := 168; right := 600; bottom := 337 |}
  /\ map_detection {| cols := 1920; rows := 1080 |} 640 640 scenario
     = {| left := 300; top := 168; right := 600; bottom := 337 |}.
Proof.
  intros _ sx sy edge ev scenario. subst ev.
  rewrite added_draw_detections. unfold draw_events.
  fold sx sy. cbn [filter is_scales is_rectangle].
  split; [|split; [|split]].
  - now rewrite filter_flat_map_none.
  - now apply filter_flat_map_one.
  - vm_compute. reflexivity.
  - vm_compute. reflexivity.
Qed.

Lemma coordinate_mapping_witness :
  let sx := F32.div (F32.of_int 1920) (F32.of_int 640) in
  let sy := F32.div (F32.of_int 1080) (F32.of_int 640) in
  let ev := added (draw_detections demo_name (demo_world true []) demo_frame
                     [demo_det]) initial in
  let scenario := {| left := 100; top := 100; right := 200; bottom := 200 |} in
  filter is_scales ev = [Scales sx sy]
  /\ filter is_rectangle ev = [Rectangle 300 168 600 337]
  /\ scale_box scenario (scale 1920 640) (scale 1080 640)
     = {| left := 300; top := 168; right := 600; bottom := 337 |}
  /\ map_detection {| cols := 1920; rows := 1080 |} 640 640 scenario
     = {| left := 300; top := 168; right := 600; bottom := 337 |}.
Proof.
  apply (coordinate_mapping demo_name (demo_world true []) demo_frame
           [demo_det] initial).
  vm_compute. reflexivity.
Defined.

(** C9.  Limiting a box to the frame a second time changes nothing. *)
Theorem clamp_box_idempotent (b : image_rect_t) (frame : Mat) :
  clamp_box (clamp_box b frame) frame = clamp_box b frame.
Proof.
  unfold clamp_box, clamp. cbn [left top right bottom].
  f_equal; lia.
Qed.

(** ** The order of the stages *)

Section Stages.

Lemma stages_app a b : stages (a ++ b) = stages a ++ stages b.
Proof. unfold stages. apply flat_map_app. Qed.

Lemma stages_flat_map {A} (g : A -> list event) l :
  stages (flat_map g l) = flat_map (fun a => stages (g a)) l.
Proof.
  induction l as [|a l IH]; [reflexivity|].
  cbn [flat_map]. now rewrite stages_app, IH.
Qed.

Lemma stages_map {A} (g : A -> event) (s : stage) l :
  (forall a, stage_of (g a) = Some s) ->
  stages (map g l) = map (fun _ => s) l.
Proof.
  intros H. induction l as [|a l IH]; [reflexivity|].
  cbn [map]. unfold stages in *. cbn [flat_map]. rewrite H, IH. reflexivity.
Qed.

Lemma nondecreasing_cons a l :
  nondecreasing (a :: l) = true <->
  (forall b, In b l -> (a <= b)%nat) /\ nondecreasing l = true.
Proof.
  revert a; induction l as [|b l IH]; intros a.
  - cbn. split; [intros _; split; [intros ? []|reflexivity] | reflexivity].
  - change (nondecreasing (a :: b :: l))
      with ((a <=? b)%nat && nondecreasing (b :: l)).
    rewrite andb_true_iff, Nat.leb_le. split.
    + intros [Hab Hl]. split; [|exact Hl].
      intros c [<-|Hc]; [exact Hab|].
      apply IH in Hl as [Hl _]. specialize (Hl c Hc). lia.
    + intros [Hall Hl]. split; [apply Hall; now left | exact Hl].
Qed.

Lemma nondecreasing_app l1 l2 :
  nondecreasing l1 = true -> nondecreasing l2 = true ->
  (forall a b, In a l1 -> In b l2 -> (a <= b)%nat) ->
  nondecreasing (l1 ++ l2) = true.
Proof.
  induction l1 as [|a l1 IH]; intros H1 H2 H; [exact H2|].
  cbn [app]. apply nondecreasing_cons in H1 as [Ha H1].
  apply nondecreasing_cons. split.
  - intros b Hb. apply in_app_or in Hb as [Hb|Hb]; [now apply Ha|].
    apply H; [now left | exact Hb].
  - apply IH; auto. intros x y Hx Hy. apply H; [now right | exact Hy].
Qed.

End Stages.

Lemma stages_of_a_good_turn name w f st :
  empty (decoded f) = false -> infer_ret f = 0 ->
  let ev := added (turn name w (Some f)) st in
  stages ev
  = [FrameSource; Preprocessor; Preprocessor; DetectorAdapter]
    ++ (Reporter :: map (fun _ => Reporter) (infer_out f)
        ++ (if count (infer_out f) =? 0 then [Reporter] else []))
    ++ (CoordinateMapper
        :: flat_map (fun _ => [CoordinateMapper; OverlayRenderer; OverlayRenderer])
             (infer_out f))
    ++ [OverlayRenderer]
    ++ (if writer_opened w then [OutputSink] else [])
  /\ count_if is_inference ev = 1%nat
  /\ in_source_order ev = true.
Proof.
  intros He Hr ev. subst ev. rewrite (added_turn_good name w f st He Hr).
  assert (Hst : stages (CapRead (decoded f)
                        :: frame_events name w (wrap_ll (frame_count st + 1)) f)
    = [FrameSource; Preprocessor; Preprocessor; DetectorAdapter]
      ++ (Reporter :: map (fun _ => Reporter) (infer_out f)
          ++ (if count (infer_out f) =? 0 then [Reporter] else []))
      ++ (CoordinateMapper
          :: flat_map (fun _ => [CoordinateMapper; OverlayRenderer; OverlayRenderer])
               (infer_out f))
      ++ [OverlayRenderer]
      ++ (if writer_opened w then [OutputSink] else [])).
  { change (CapRead (decoded f) :: ?l) with ([CapRead (decoded f)] ++ l).
    unfold frame_events, report_events, draw_events.
    change (Printf fmt_header ?a :: ?l) with ([Printf fmt_header a] ++ l).
    change (Scales ?a ?b :: ?l) with ([Scales a b] ++ l).
    rewrite !stages_app, stages_flat_map.
    rewrite (stages_map _ Reporter) by reflexivity.
    replace (stages (if count (infer_out f) =? 0 then [Printf fmt_none []] else []))
      with (if count (infer_out f) =? 0 then [Reporter] else [])
      by (now destruct (count (infer_out f) =? 0)).
    replace (stages (if writer_opened w then [WriterWrite] else []))
      with (if writer_opened w then [OutputSink] else [])
      by (now destruct (writer_opened w)).
    reflexivity. }
  split; [exact Hst|]. split.
  - rewrite count_if_cons, count_inference_frame. reflexivity.
  - unfold in_source_order. rewrite Hst. rewrite !map_app.
    assert (Hin : forall (l : list object_detect_result) b,
              In b (map source_rank
                      (flat_map (fun _ => [CoordinateMapper; OverlayRenderer;
                                           OverlayRenderer]) l)) -> b = 4%nat).
    { intros l b Hb. apply in_map_iff in Hb as [s [<- Hs]].
      apply in_flat_map in Hs as [_ [_ Hs]].
      cbn in Hs. now destruct Hs as [<-|[<-|[<-|[]]]]. }
    assert (Hrep : forall b,
              In b (map source_rank
                      (Reporter :: map (fun _ => Reporter) (infer_out f)
                       ++ (if count (infer_out f) =? 0 then [Reporter] else [])))
              -> b = 3%nat).
    { intros b Hb. apply in_map_iff in Hb as [s [<- Hs]].
      destruct Hs as [<-|Hs]; [reflexivity|].
      apply in_app_or in Hs as [Hs|Hs].
      - now apply in_map_iff in Hs as [_ [<- _]].
      - destruct (count (infer_out f) =? 0); [|contradiction].
        now destruct Hs as [<-|[]]. }
    assert (Hmap : forall b,
              In b (map source_rank
                      (CoordinateMapper
                       :: flat_map (fun _ => [CoordinateMapper; OverlayRenderer;
                                              OverlayRenderer]) (infer_out f)))
              -> b = 4%nat).
    { intros b Hb. cbn [map] in Hb. destruct Hb as [<-|Hb]; [reflexivity|].
      now apply Hin in Hb. }
    assert (Htail : forall b,
              In b (map source_rank [OverlayRenderer]
                    ++ map source_rank (if writer_opened w then [OutputSink] else []))
              -> (4 <= b)%nat).
    { intros b Hb. destruct (writer_opened w); cbn in Hb;
        repeat (destruct Hb as [<-|Hb]; [lia|]); contradiction. }
    assert (Hsorted_eq : forall l k, (forall b, In b l -> b = k) ->
                                     nondecreasing l = true).
    { induction l as [|a l IH]; intros k Hk; [reflexivity|].
      apply nondecreasing_cons. split.
      - intros b Hb. rewrite (Hk a) by now left. rewrite (Hk b) by now right. lia.
      - apply (IH k). intros b Hb. apply Hk. now right. }
    apply nondecreasing_app; [reflexivity| |].
    + apply nondecreasing_app; [exact (Hsorted_eq _ _ Hrep)| |].
      * apply nondecreasing_app; [exact (Hsorted_eq _ _ Hmap)| |].
        -- destruct (writer_opened w); reflexivity.
        -- intros a b Ha Hb. apply Hmap in Ha. apply Htail in Hb. lia.
      * intros a b Ha Hb. apply Hrep in Ha.
        apply in_app_or in Hb as [Hb|Hb];
          [apply Hmap in Hb | apply Htail in Hb]; lia.
    + intros a b Ha Hb. cbn in Ha.
      assert (a <= 2)%nat by (repeat (destruct Ha as [<-|Ha]; [lia|]); contradiction).
      apply in_app_or in Hb as [Hb|Hb]; [apply Hrep in Hb; lia|].
      apply in_app_or in Hb as [Hb|Hb];
        [apply Hmap in Hb | apply Htail in Hb]; lia.
Qed.

Lemma added_turn_none name w st :
  added (turn name w None) st = end_events (frame_count st).
Proof.
  rewrite (added_trace _ _ (map (pair (frame_count st))
                              (end_events (frame_count st)))).
  - apply events_pair.
  - now rewrite turn_none.
Qed.

Lemma added_turn_no_frame name w f st :
  empty (decoded f) = true ->
  added (turn name w (Some f)) st
  = [CapRead (decoded f);
     Printf "End of video. Total processed frames: %lld\n"
       [ALong (frame_count st)]].
Proof.
  intros He.
  rewrite (added_trace _ _ (map (pair (frame_count st))
    [CapRead (decoded f);
     Printf "End of video. Total processed frames: %lld\n"
       [ALong (frame_count st)]])).
  - apply events_pair.
  - now rewrite (turn_no_frame name w f st He).
Qed.

Lemma added_turn_failed name w f st :
  empty (decoded f) = false -> infer_ret f <> 0 ->
  added (turn name w (Some f)) st
  = CapRead (decoded f) :: failed_events w (wrap_ll (frame_count st + 1)) f.
Proof.
  intros He Hr.
  rewrite (added_trace _ _ ((frame_count st, CapRead (decoded f))
    :: map (pair (wrap_ll (frame_count st + 1)))
         (failed_events w (wrap_ll (frame_count st + 1)) f))).
  - change (events (?x :: ?l)) with (snd x :: events l).
    now rewrite events_pair.
  - rewrite (turn_failed name w f st He Hr).
    cbn [snd log bump trace frame_count map]. now rewrite <- app_assoc.
Qed.

(** C3, as the source has it.  Every turn of the loop runs the stages in
    this order: the read; then, when a frame was delivered, the resize
    and the colour conversion and the one inference; then, when the
    inference succeeded, the report (the heading, then a line for every
    detection or the line for none), the two scales, for every detection
    its mapping followed by its rectangle and its label, the FPS text,
    and the write when the writer is open.  So the mapping comes after
    the single inference and after the report, and the stages of every
    turn are in the order of [source_rank]. *)
Theorem stages_of_a_turn name w next st :
  let ev := added (turn name w next) st in
  stages ev
  = match next with
    | None => [FrameSource]
    | Some f =>
        if empty (decoded f) then [FrameSource]
        else if infer_ret f =? 0 then
          [FrameSource; Preprocessor; Preprocessor; DetectorAdapter]
          ++ (Reporter :: map (fun _ => Reporter) (infer_out f)
              ++ (if count (infer_out f) =? 0 then [Reporter] else []))
          ++ (CoordinateMapper
              :: flat_map (fun _ => [CoordinateMapper; OverlayRenderer;
                                     OverlayRenderer])
                   (infer_out f))
          ++ [OverlayRenderer]
          ++ (if writer_opened w then [OutputSink] else [])
        else [FrameSource; Preprocessor; Preprocessor; DetectorAdapter]
    end
  /\ count_if is_inference ev
     = match next with
       | None => 0%nat
       | Some f => if empty (decoded f) then 0%nat else 1%nat
       end
  /\ in_source_order ev = true.
Proof.
  intros ev. subst ev. destruct next as [f|].
  - destruct (empty (decoded f)) eqn:He.
    + rewrite (added_turn_no_frame name w f st He). repeat split; reflexivity.
    + destruct (Z.eqb_spec (infer_ret f) 0) as [Hr|Hr].
      * exact (stages_of_a_good_turn name w f st He Hr).
      * rewrite (added_turn_failed name w f st He Hr).
        repeat split; reflexivity.
  - rewrite added_turn_none. repeat split; reflexivity.
Qed.

(** C3, as the design document has it, fails: in the turn of a frame with
    one detection the report is printed before the box is mapped, so the
    stages are not in the order of the data flow, Coordinate Mapper before
    Reporter. *)
Lemma flow_order_counterexample :
  let ev := added (turn demo_name (demo_world true []) (Some step_one)) initial in
  stages ev
  = [FrameSource; Preprocessor; Preprocessor; DetectorAdapter;
     Reporter; Reporter;
     CoordinateMapper; CoordinateMapper; OverlayRenderer; OverlayRenderer;
     OverlayRenderer; OutputSink]
  /\ in_flow_order ev = false.
Proof. vm_compute. split; reflexivity. Qed.

(** ** The frame counter *)

Section Counter.

Variable name : Z -> string.
Variable w : world.

Lemma counter_tracks_app n t1 t2 :
  counter_tracks n (t1 ++ t2)
  = counter_tracks n t1
    && counter_tracks (n + Z.of_nat (count_if acquired (events t1))) t2.
Proof.
  revert n; induction t1 as [|[c e] t1 IH]; intros n; cbn [app counter_tracks].
  - cbn. now rewrite Z.add_0_r.
  - rewrite IH, <- andb_assoc. f_equal. f_equal.
    cbn [events map snd]. rewrite count_if_cons. fold (events t1).
    f_equal. destruct (acquired e); lia.
Qed.

Lemma counter_tracks_quiet n l :
  count_if acquired l = 0%nat -> counter_tracks n (map (pair n) l) = true.
Proof.
  induction l as [|e l IH]; intros H; [reflexivity|].
  rewrite count_if_cons in H. cbn [map counter_tracks].
  destruct (acquired e); [discriminate|].
  rewrite Z.eqb_refl. apply IH. exact H.
Qed.

Lemma agrees_log st l :
  agrees st -> count_if acquired l = 0%nat -> agrees (log st l).
Proof.
  intros [Ht Hc] Hl. split.
  - cbn [log trace]. rewrite counter_tracks_app, Ht, Z.add_0_l, <- Hc.
    now rewrite counter_tracks_quiet.
  - rewrite events_log, count_if_app, Hl, Nat.add_0_r. exact Hc.
Qed.

Lemma agrees_read st m :
  agrees st -> empty m = false -> frame_count st + 1 < 2 ^ 63 ->
  agrees (bump (log st [CapRead m])) /\
  frame_count (bump (log st [CapRead m])) = frame_count st + 1.
Proof.
  intros [Ht Hc] Hm Hlt.
  assert (Hw : wrap_ll (frame_count st + 1) = frame_count st + 1).
  { unfold wrap_ll.
    change 9223372036854775808 with (2 ^ 63).
    change 18446744073709551616 with (2 ^ 64).
    rewrite Z.mod_small; lia. }
  split; [split|].
  - cbn [bump log trace map]. rewrite counter_tracks_app, Ht, Z.add_0_l, <- Hc.
    cbn [counter_tracks]. now rewrite Z.eqb_refl.
  - change (trace (bump ?s)) with (trace s).
    rewrite events_log, count_if_app, count_if_cons.
    cbn [bump log frame_count]. rewrite Hw. cbn [acquired]. rewrite Hm.
    cbn [negb]. change (count_if acquired []) with 0%nat. lia.
  - cbn [bump log frame_count]. exact Hw.
Qed.

Lemma count_acquired_frame n f :
  count_if acquired (frame_events name w n f) = 0%nat.
Proof.
  rewrite count_if_frame_events.
  rewrite (count_if_report _ _ _ _ false) by reflexivity.
  rewrite (count_if_draw _ _ _ _ _ 0) by reflexivity.
  destruct (count (infer_out f) =? 0), (writer_opened w); reflexivity.
Qed.

Lemma agrees_loop s st :
  agrees st -> frame_count st + Z.of_nat (List.length s) < 2 ^ 63 ->
  agrees (snd (loop name w s st)).
Proof.
  revert st; induction s as [|f s IH]; intros st Hst Hlt.
  - rewrite loop_nil. cbn [snd]. apply agrees_log; [exact Hst|reflexivity].
  - cbn [List.length] in Hlt.
    destruct (empty (decoded f)) eqn:He.
    + rewrite (loop_no_frame name w f s st He). cbn [snd].
      apply agrees_log; [exact Hst|].
      rewrite !count_if_cons. cbn [acquired]. now rewrite He.
    + destruct (agrees_read st (decoded f) Hst He ltac:(lia)) as [Hag Hfc].
      destruct (Z.eq_dec (infer_ret f) 0) as [Hr|Hr].
      * cbn [loop]. unfold bind. rewrite (turn_good name w f st He Hr).
        apply IH.
        -- apply agrees_log; [exact Hag|apply count_acquired_frame].
        -- rewrite frame_count_log, Hfc. lia.
      * rewrite (loop_failed name w f s st He Hr). cbn [snd].
        apply agrees_log; [exact Hag|reflexivity].
Qed.

Lemma agrees_initial_log l :
  count_if acquired l = 0%nat -> agrees (log initial l).
Proof. apply agrees_log. split; reflexivity. Qed.

Lemma count_acquired_startup : count_if acquired (startup_events w) = 0%nat.
Proof.
  unfold startup_events, writer_events, capture_event.
  destruct (nth_arg w 2) as [|c [|c' s]]; try destruct (isdigit c);
    destruct (negb (writer_opened w)); reflexivity.
Qed.

Lemma count_acquired_cleanup : count_if acquired (cleanup_events w) = 0%nat.
Proof. unfold cleanup_events. destruct (writer_opened w); reflexivity. Qed.

Lemma agrees_main :
  Z.of_nat (List.length (stream w)) < 2 ^ 63 -> agrees (snd (main name w)).
Proof.
  intros Hlt. destruct (starts_up w) eqn:Hs.
  - rewrite (main_started name w Hs). cbn [snd].
    apply agrees_log; [|apply count_acquired_cleanup].
    apply agrees_loop.
    + apply agrees_initial_log, count_acquired_startup.
    + rewrite frame_count_log. cbn. lia.
  - unfold starts_up in Hs. unfold main, main_body.
    destruct (Z.of_nat (List.length (argv w)) =? 3); cbn [negb].
    + destruct (init_ret w =? 0); cbn [negb].
      * destruct (cap_opened w); [discriminate|]. cbn [negb].
        unfold bind. rewrite !emit_log, open_capture_log, !emit_log, !log_log.
        cbn [snd pure]. apply agrees_initial_log.
        cbn [app]. unfold capture_event.
        destruct (nth_arg w 2) as [|c [|c' s]]; try destruct (isdigit c);
          reflexivity.
      * unfold bind. rewrite !emit_log, !log_log. cbn [snd pure].
        apply agrees_initial_log. reflexivity.
    + unfold usage, bind. rewrite !emit_log, !log_log. cbn [snd pure].
      apply agrees_initial_log. reflexivity.
Qed.

End Counter.

(** C7.  The counter starts at 0; in every run each event is logged with
    as many frames on the counter as were acquired before it, so the read
    of a frame sees the count of the frames before and every later step of
    that frame the count with it; at the end the counter is the number of
    the frames acquired.  (A [long long] holds the count of any stream
    shorter than 2^63 frames.) *)
Theorem frame_counter_tracks_acquisitions name w :
  Z.of_nat (List.length (stream w)) < 2 ^ 63 ->
  frame_count initial = 0
  /\ counter_tracks 0 (trace (snd (main name w))) = true
  /\ frame_count (snd (main name w))
     = Z.of_nat (count_if acquired (events (trace (snd (main name w))))).
Proof.
  intros Hlt. split; [reflexivity|]. exact (agrees_main name w Hlt).
Qed.

Lemma frame_counter_tracks_acquisitions_witness :
  let w := demo_world true [step_one; step_none; step_one] in
  frame_count initial = 0
  /\ counter_tracks 0 (trace (snd (main demo_name w))) = true
  /\ frame_count (snd (main demo_name w))
     = Z.of_nat (count_if acquired (events (trace (snd (main demo_name w))))).
Proof.
  intros w. apply (frame_counter_tracks_acquisitions demo_name w).
  reflexivity.
Defined.

(** ** Runs over any stream *)

Section AnyStream.

Variable name : Z -> string.
Variable w : world.

Lemma stream_split s :
  s = good_prefix s ++ match first_bad s with
                       | None => []
                       | Some f => f :: skipn (S (List.length (good_prefix s))) s
                       end
  /\ forallb good_step (good_prefix s) = true
  /\ match first_bad s with
     | None => True
     | Some f => good_step f = false
     end.
Proof.
  induction s as [|f s [IH1 [IH2 IH3]]]; [repeat split; reflexivity|].
  cbn [good_prefix first_bad]. destruct (good_step f) eqn:Hf.
  - cbn [app forallb List.length]. rewrite Hf, IH2. repeat split; [|exact IH3].
    f_equal. destruct (first_bad s); exact IH1.
  - cbn. rewrite Hf. repeat split; reflexivity.
Qed.

Lemma frame_count_after_turns s st :
  frame_count (after_turns name w st s)
  = advance (frame_count st) (List.length s).
Proof.
  revert st; induction s as [|f s IH]; intros st; [reflexivity|].
  cbn [after_turns List.length advance]. now rewrite IH.
Qed.

(** The trace of the loop, whatever the stream. *)
Lemma events_loop s st :
  events (trace (snd (loop name w s st)))
  = events (trace st) ++ loop_events name w (frame_count st) s.
Proof.
  destruct (stream_split s) as [Hs [Hg Hb]]. unfold loop_events.
  set (g := good_prefix s) in *. rewrite Hs at 1.
  rewrite (loop_good name w g _ st Hg).
  destruct (first_bad s) as [f|].
  - unfold good_step in Hb. cbn [last_turn_events].
    rewrite <- (frame_count_after_turns g st).
    destruct (empty (decoded f)) eqn:He.
    + rewrite (loop_no_frame name w f _ _ He). cbn [snd].
      rewrite events_log, events_after_turns. now rewrite <- app_assoc.
    + cbn [negb andb] in Hb. apply Z.eqb_neq in Hb.
      rewrite (loop_failed name w f _ _ He Hb). cbn [snd].
      rewrite events_log. change (trace (bump ?x)) with (trace x).
      rewrite events_log, events_after_turns. now rewrite <- !app_assoc.
  - rewrite loop_nil. cbn [snd last_turn_events].
    rewrite events_log, events_after_turns, frame_count_after_turns.
    now rewrite <- app_assoc.
Qed.

(** The trace of a run, whatever the world. *)
Lemma events_main : events (trace (snd (main name w))) = run_events name w.
Proof.
  unfold run_events. destruct (starts_up w) eqn:Hs.
  - rewrite (main_started name w Hs). cbn [snd].
    rewrite events_log, events_loop, events_log.
    unfold starts_up in Hs.
    apply andb_prop in Hs as [Hs Hc]. apply andb_prop in Hs as [Ha Hi].
    rewrite Ha, Hi, Hc. cbn [negb]. cbn [events trace initial map app].
    now rewrite <- app_assoc.
  - unfold starts_up in Hs. unfold main, main_body.
    destruct (Z.of_nat (List.length (argv w)) =? 3); cbn [negb].
    + destruct (init_ret w =? 0); cbn [negb].
      * destruct (cap_opened w); [discriminate|]. cbn [negb].
        unfold bind. rewrite !emit_log, open_capture_log, !emit_log, !log_log.
        cbn [snd pure]. now rewrite events_log.
      * unfold bind. rewrite !emit_log, !log_log. cbn [snd pure].
        now rewrite events_log.
    + unfold usage, bind. rewrite !emit_log, !log_log. cbn [snd pure].
      now rewrite events_log.
Qed.

(** What [main] returns, whatever the world. *)
Lemma main_returns : fst (main name w) = if starts_up w then 0 else -1.
Proof.
  destruct (starts_up w) eqn:Hs.
  - now rewrite (main_started name w Hs).
  - unfold starts_up in Hs. unfold main, main_body.
    destruct (Z.of_nat (List.length (argv w)) =? 3); cbn [negb].
    + destruct (init_ret w =? 0); cbn [negb].
      * destruct (cap_opened w); [discriminate|]. cbn [negb].
        unfold bind. rewrite !emit_log, open_capture_log, !emit_log.
        reflexivity.
      * unfold bind. rewrite !emit_log. reflexivity.
    + unfold usage, bind. rewrite !emit_log. reflexivity.
Qed.

End AnyStream.

(** ** The exit code and the resources *)

Section Resources.

Variable name : Z -> string.
Variable w : world.

Lemma forallb_flat_map {A} (q : event -> bool) (g : A -> list event) l :
  (forall a, forallb q (g a) = true) -> forallb q (flat_map g l) = true.
Proof.
  intros H. induction l as [|a l IH]; [reflexivity|].
  cbn [flat_map]. now rewrite forallb_app, H, IH.
Qed.

Lemma forallb_map {A} (q : event -> bool) (g : A -> event) l :
  (forall a, q (g a) = true) -> forallb q (map g l) = true.
Proof.
  intros H. induction l as [|a l IH]; [reflexivity|].
  cbn [map forallb]. now rewrite H, IH.
Qed.

Lemma frame_events_in_loop n f :
  forallb in_loop (frame_events name w n f) = true.
Proof.
  unfold frame_events, report_events, draw_events.
  rewrite !forallb_app. cbn [forallb in_loop andb].
  rewrite forallb_app, forallb_map by reflexivity.
  rewrite forallb_flat_map by reflexivity.
  destruct (count (infer_out f) =? 0), (writer_opened w); reflexivity.
Qed.

Lemma turns_events_in_loop n s :
  forallb in_loop (turns_events name w n s) = true.
Proof.
  revert n; induction s as [|f s IH]; intros n; [reflexivity|].
  cbn [turns_events forallb in_loop andb].
  now rewrite forallb_app, frame_events_in_loop, IH.
Qed.

Lemma loop_events_in_loop n s :
  forallb in_loop (loop_events name w n s) = true.
Proof.
  unfold loop_events. rewrite forallb_app, turns_events_in_loop.
  destruct (first_bad s) as [f|]; [|reflexivity].
  cbn [last_turn_events]. destruct (empty (decoded f)); reflexivity.
Qed.

(** A predicate that holds of no event of the loop counts nothing there. *)
Lemma count_if_outside p q l :
  forallb q l = true -> (forall e, q e = true -> p e = false) ->
  count_if p l = 0%nat.
Proof.
  intros Hq H. induction l as [|e l IH]; [reflexivity|].
  cbn [forallb] in Hq. apply andb_prop in Hq as [He Hl].
  rewrite count_if_cons, (H e He), IH by exact Hl. reflexivity.
Qed.

Lemma count_if_loop_events p n s :
  (forall e, in_loop e = true -> p e = false) ->
  count_if p (loop_events name w n s) = 0%nat.
Proof. intros H. exact (count_if_outside p in_loop _ (loop_events_in_loop n s) H). Qed.

Lemma capture_event_cases :
  (exists d, capture_event (nth_arg w 2) = CapOpenDevice d)
  \/ (exists s, capture_event (nth_arg w 2) = CapOpenFile s).
Proof.
  unfold capture_event. destruct (nth_arg w 2) as [|c [|c' s]]; eauto.
  destruct (isdigit c); eauto.
Qed.

End Resources.

(** X1.  What [main] returns depends on the start-up alone: 0 when there
    are two arguments and the model and the capture open, -1 otherwise;
    nothing the stream or the detector does later changes it. *)
Theorem main_exit_code name w :
  fst (main name w)
  = if (Z.of_nat (List.length (argv w)) =? 3) && (init_ret w =? 0) && cap_opened w
    then 0 else -1.
Proof. exact (main_returns name w). Qed.

(** X2.  In every run the post-process tables are set up and torn down
    the same number of times, the model is released once exactly when its
    initialisation succeeded, the capture is released once exactly when it
    opened, and the writer once exactly when the loop was reached with the
    writer open. *)
Theorem resources_are_balanced name w :
  let ev := events (trace (snd (main name w))) in
  let args := Z.of_nat (List.length (argv w)) =? 3 in
  let model := args && (init_ret w =? 0) in
  let capture := model && cap_opened w in
  let one (b : bool) := if b then 1%nat else 0%nat in
  count_if (is_event InitPostProcess) ev = one args
  /\ count_if (is_event DeinitPostProcess) ev = one args
  /\ count_if is_init_model ev = one args
  /\ count_if (is_event ReleaseModel) ev = one model
  /\ count_if is_cap_open ev = one model
  /\ count_if (is_event CapRelease) ev = one capture
  /\ count_if (is_event WriterRelease) ev = one (capture && writer_opened w).
Proof.
  intros ev args model capture one. subst ev args model capture one.
  rewrite events_main. unfold run_events.
  destruct (Z.of_nat (List.length (argv w)) =? 3); cbn [negb andb];
    [|repeat split; reflexivity].
  destruct (init_ret w =? 0); cbn [negb andb]; [|repeat split; reflexivity].
  destruct (capture_event_cases w) as [[d Hd]|[s Hs]];
    (destruct (cap_opened w); cbn [negb andb];
     [ unfold startup_events, writer_events, cleanup_events;
       repeat first [rewrite count_if_cons | rewrite count_if_app];
       rewrite !(count_if_loop_events name w) by (intros [] He; try reflexivity; discriminate);
       rewrite ?Hd, ?Hs;
       destruct (writer_opened w); cbn [negb]; repeat split; reflexivity
     | unfold open_failed_events; rewrite ?Hd, ?Hs; repeat split; reflexivity ]).
Qed.

(** ** The start-up *)



Lemma isdigit_code c :
  isdigit c = true ->
  0 <= atoi1 c <= 9
  /\ c = ascii_of_nat (Z.to_nat (48 + atoi1 c)).
Proof.
  unfold isdigit, atoi1. intros H. apply andb_prop in H as [H1 H2].
  apply Z.leb_le in H1, H2. split; [lia|].
  replace (Z.to_nat (48 + (Z.of_nat (nat_of_ascii c) - 48)))
    with (nat_of_ascii c) by lia.
  now rewrite ascii_nat_embedding.
Qed.

Lemma isdigit_digit d :
  0 <= d <= 9 -> isdigit (ascii_of_nat (Z.to_nat (48 + d))) = true.
Proof.
  intros H. unfold isdigit.
  rewrite nat_ascii_embedding by lia.
  apply andb_true_intro. split; apply Z.leb_le; lia.
Qed.

(** X4.  The capture is opened as a device exactly when the source is one
    decimal digit, and then with that digit as its number; every other
    source -- the empty string, two digits, a path -- is opened as a file
    under the name given. *)
Theorem capture_dispatch src st :
  (exists d, 0 <= d <= 9
             /\ src = String (ascii_of_nat (Z.to_nat (48 + d))) EmptyString
             /\ added (open_capture src) st = [CapOpenDevice d])
  \/ ((forall d, 0 <= d <= 9 ->
                 src <> String (ascii_of_nat (Z.to_nat (48 + d))) EmptyString)
      /\ added (open_capture src) st = [CapOpenFile src]).
Proof.
  assert (Hadd : added (open_capture src) st = [capture_event src]).
  { rewrite (added_trace _ _ [(frame_count st, capture_event src)]);
      [reflexivity | now rewrite open_capture_log]. }
  rewrite Hadd. unfold capture_event.
  destruct src as [|c [|c' s]].
  - right. split; [intros d _; discriminate | reflexivity].
  - destruct (isdigit c) eqn:Hc.
    + left. exists (atoi1 c). destruct (isdigit_code c Hc) as [Hr Heq].
      repeat split; try apply Hr. now rewrite <- Heq.
    + right. split; [|reflexivity].
      intros d Hd Heq. pose proof (isdigit_digit d Hd) as Hx.
      assert (Hceq : c = ascii_of_nat (Z.to_nat (48 + d))) by congruence.
      rewrite <- Hceq in Hx. congruence.
  - right. split; [intros d _; discriminate | reflexivity].
Qed.

(** X5.  A run that starts up makes the writer once, with the size the
    capture reports cut to [int]s (a size that fits an [int]) and with
    the rate the capture reports, but 30 in its place when that rate is
    a zero, negative or minus infinity; a positive rate, plus infinity
    and a rate that is not a number are handed on as they are. *)
Theorem writer_parameters name w :
  (Z.of_nat (List.length (argv w)) =? 3) && (init_ret w =? 0) && cap_opened w
  = true ->
  cast_in_range (cap_width w) = true -> cast_in_range (cap_height w) = true ->
  filter is_writer_open (events (trace (snd (main name w))))
  = [WriterOpen
       match cap_fps w with
       | S754_zero _ | S754_finite true _ _ | S754_infinity true => F64.of_int 30
       | S754_finite false _ _ | S754_infinity false | S754_nan => cap_fps w
       end
       (int_of_float (cap_width w)) (int_of_float (cap_height w))].
Proof.
  intros H _ _. rewrite events_main. unfold run_events.
  apply andb_prop in H as [H Hc]. apply andb_prop in H as [Ha Hi].
  rewrite Ha, Hi, Hc. cbn [negb].
  unfold startup_events, writer_events. rewrite !filter_app.
  rewrite (count_if_zero is_writer_open (loop_events name w 0 (stream w)))
    by (apply count_if_loop_events; intros [] He; try reflexivity; discriminate).
  assert (Hcl : filter is_writer_open (cleanup_events w) = []).
  { unfold cleanup_events. now destruct (writer_opened w). }
  rewrite Hcl.
  assert (Hcap : is_writer_open (capture_event (nth_arg w 2)) = false).
  { destruct (capture_event_cases w) as [[d ->]|[s ->]]; reflexivity. }
  cbn [filter is_writer_open app]. rewrite Hcap.
  assert (Hfps :
    (if F64.leb (cap_fps w) (F64.of_int 0) then F64.of_int 30 else cap_fps w)
    = match cap_fps w with
      | S754_zero _ | S754_finite true _ _ | S754_infinity true => F64.of_int 30
      | S754_finite false _ _ | S754_infinity false | S754_nan => cap_fps w
      end).
  { destruct (cap_fps w) as [s|s| |s m e]; try destruct s; reflexivity. }
  rewrite Hfps.
  destruct (negb (writer_opened w)); reflexivity.
Qed.

Lemma writer_parameters_witness :
  let w := {| argv := ["video"%string; "m.rknn"%string; "0"%string];
              init_ret := 0; model_width := 640; model_height := 640;
              cap_opened := true;
              cap_width := F64.of_int 1920; cap_height := F64.of_int 1080;
              cap_fps := S754_zero true; writer_opened := true;
              stream := [step_one] |} in
  filter is_writer_open (events (trace (snd (main demo_name w))))
  = [WriterOpen (F64.of_int 30) 1920 1080].
Proof.
  intros w. apply (writer_parameters demo_name w); reflexivity.
Defined.

(** ** What is drawn *)

Lemma clamp_range v d : 1 <= d -> 0 <= clamp v d < d.
Proof. unfold clamp. lia. Qed.

(** X6.  On a frame that is not empty, for boxes whose scaled edges fit
    an [int], what the overlay draws for the detections is, in the order
    of the list, for each of them the rectangle of its mapped box and
    then its label, anchored at the left edge of that box and 10 rows
    above its top edge; the corners of every rectangle lie on the frame,
    so the anchor of a label lies between row -10 and row [rows - 11],
    off the frame for a box mapped into the top 10 rows. *)
Theorem drawings_stay_on_frame name w frame dets st :
  1 <= cols frame -> 1 <= rows frame ->
  forallb (fun det => box_in_range (box det)
                        (scale (cols frame) (model_width w))
                        (scale (rows frame) (model_height w))) dets = true ->
  let mapped det :=
    map_detection frame (model_width w) (model_height w) (box det) in
  filter (fun e => is_rectangle e || is_put_text "%s %.1f%%" e)
    (added (draw_detections name w frame dets) st)
  = flat_map
      (fun det =>
         [Rectangle (left (mapped det)) (top (mapped det))
                    (right (mapped det)) (bottom (mapped det));
          PutText "%s %.1f%%"
            [AStr (name (cls_id det));
             ADouble (F32.mul (prop det) (F32.of_int 100))]
            (left (mapped det)) (top (mapped det) - 10)])
      dets
  /\ Forall (fun det =>
               0 <= left (mapped det) < cols frame
               /\ 0 <= right (mapped det) < cols frame
               /\ 0 <= top (mapped det) < rows frame
               /\ 0 <= bottom (mapped det) < rows frame)
       dets.
Proof.
  intros Hc Hr _ mapped. rewrite added_draw_detections. unfold draw_events.
  split.
  - cbn [filter is_rectangle is_put_text orb].
    induction dets as [|d dets IH]; [reflexivity|].
    cbn [flat_map]. rewrite filter_app, IH. reflexivity.
  - apply Forall_forall. intros det _. subst mapped. cbv beta.
    unfold map_detection, map_box, clamp_box. cbn [left top right bottom].
    repeat split; apply clamp_range; assumption.
Qed.

Lemma drawings_stay_on_frame_witness :
  filter (fun e => is_rectangle e || is_put_text "%s %.1f%%" e)
    (added (draw_detections demo_name (demo_world true []) demo_frame
              [demo_det_top; demo_det]) initial)
  = [Rectangle 15 3 150 67;
     PutText "%s %.1f%%"
       [AStr "person"; ADouble (S754_finite false 13107200 (-18))] 15 (-7);
     Rectangle 300 168 600 337;
     PutText "%s %.1f%%"
       [AStr "person"; ADouble (S754_finite false 13107200 (-18))] 300 158]
  /\ Forall (fun det =>
               0 <= left (map_detection demo_frame 640 640 (box det)) < 1920
               /\ 0 <= right (map_detection demo_frame 640 640 (box det)) < 1920
               /\ 0 <= top (map_detection demo_frame 640 640 (box det)) < 1080
               /\ 0 <= bottom (map_detection demo_frame 640 640 (box det)) < 1080)
       [demo_det_top; demo_det].
Proof.
  apply (drawings_stay_on_frame demo_name (demo_world true []) demo_frame
           [demo_det_top; demo_det] initial).
  - cbn. lia.
  - cbn. lia.
  - vm_compute. reflexivity.
Defined.

(** ** The numbers of the frames *)

Section Numbers.

Variable name : Z -> string.
Variable w : world.

Lemma wrap_ll_small z : - 2 ^ 63 <= z < 2 ^ 63 -> wrap_ll z = z.
Proof.
  intros H. unfold wrap_ll.
  change 9223372036854775808 with (2 ^ 63).
  change 18446744073709551616 with (2 ^ 64).
  rewrite Z.mod_small; lia.
Qed.

Lemma advance_small n k :
  0 <= n -> n + Z.of_nat k < 2 ^ 63 -> advance n k = n + Z.of_nat k.
Proof.
  revert n; induction k as [|k IH]; intros n Hn Hk; cbn [advance]; [lia|].
  rewrite wrap_ll_small by lia. rewrite IH by lia. lia.
Qed.

Lemma numbered_small (s : list frame_step) n :
  0 <= n -> n + Z.of_nat (List.length s) < 2 ^ 63 ->
  numbered n s
  = combine (map (fun i => n + Z.of_nat i) (seq 1 (List.length s))) s.
Proof.
  revert n; induction s as [|f s IH]; intros n Hn Hs; [reflexivity|].
  cbn [List.length] in Hs. cbn [numbered List.length seq map combine].
  rewrite wrap_ll_small by lia. rewrite IH by lia.
  replace (map (fun i => n + 1 + Z.of_nat i) (seq 1 (List.length s)))
    with (map (fun i => n + Z.of_nat i) (seq 2 (List.length s))).
  - reflexivity || (f_equal; f_equal; lia).
  - rewrite <- (seq_shift (List.length s) 1), map_map.
    apply map_ext. intros i. lia.
Qed.

Lemma with_numbers_numbered (s : list frame_step) :
  Z.of_nat (List.length s) < 2 ^ 63 -> numbered 0 s = with_numbers s.
Proof.
  intros H. rewrite numbered_small by lia. unfold with_numbers.
  f_equal.
Qed.

(** What a predicate keeps of the good turns, frame by frame. *)
Lemma filter_turns p (h : Z -> frame_step -> list event) n s :
  (forall k f, filter p (CapRead (decoded f) :: frame_events name w k f) = h k f) ->
  filter p (turns_events name w n s)
  = flat_map (fun kf => h (fst kf) (snd kf)) (numbered n s).
Proof.
  intros H. revert n; induction s as [|f s IH]; intros n; [reflexivity|].
  cbn [turns_events numbered flat_map fst snd].
  change (CapRead (decoded f) :: ?a ++ ?b) with ((CapRead (decoded f) :: a) ++ b).
  now rewrite filter_app, H, IH.
Qed.

Lemma flat_map_singleton {A B} (g : A -> B) (l : list A) :
  flat_map (fun a => [g a]) l = map g l.
Proof. induction l as [|a l IH]; [reflexivity|]. cbn. now rewrite IH. Qed.

Lemma filter_header_frame k f :
  filter (printed fmt_header)
    (CapRead (decoded f) :: frame_events name w k f)
  = [Printf fmt_header [ALong k; AInt (count (infer_out f))]].
Proof.
  cbn [filter printed]. unfold frame_events, report_events.
  rewrite !filter_app. cbn [filter printed inference_events app].
  change (String.eqb fmt_header fmt_header) with true. cbv iota.
  rewrite filter_app.
  rewrite (count_if_zero _ _ (count_if_map _ (report_line name) _ false
                                (fun _ => eq_refl))).
  rewrite (count_if_zero (printed fmt_header) (draw_events name w _ _))
    by (now rewrite (count_if_draw name w _ _ _ 0)).
  destruct (count (infer_out f) =? 0), (writer_opened w); reflexivity.
Qed.

Lemma filter_fps_frame k f :
  filter (is_put_text fmt_fps)
    (CapRead (decoded f) :: frame_events name w k f)
  = [fps_event k (elapsed_ms f)].
Proof.
  cbn [filter is_put_text]. unfold frame_events, report_events.
  rewrite !filter_app. cbn [filter is_put_text inference_events app].
  rewrite filter_app.
  rewrite (count_if_zero _ _ (count_if_map _ (report_line name) _ false
                                (fun _ => eq_refl))).
  rewrite (count_if_zero (is_put_text fmt_fps) (draw_events name w _ _))
    by (now rewrite (count_if_draw name w _ _ _ 0)).
  destruct (count (infer_out f) =? 0), (writer_opened w); reflexivity.
Qed.

Lemma filter_outside (p q : event -> bool) l :
  forallb q l = true -> (forall e, q e = true -> p e = false) ->
  filter p l = [].
Proof. intros Hq H. apply count_if_zero. now apply (count_if_outside p q). Qed.

Lemma is_printf_capture : is_printf (capture_event (nth_arg w 2)) = false.
Proof. destruct (capture_event_cases w) as [[d ->]|[s ->]]; reflexivity. Qed.

End Numbers.

Section NumbersOfARun.

Variable name : Z -> string.
Variable w : world.

Lemma good_prefix_length s :
  (List.length (good_prefix s) <= List.length s)%nat.
Proof.
  induction s as [|f s IH]; [reflexivity|].
  cbn [good_prefix]. destruct (good_step f); cbn [List.length]; lia.
Qed.

Lemma good_prefix_shorter s f :
  first_bad s = Some f -> (List.length (good_prefix s) < List.length s)%nat.
Proof.
  induction s as [|g s IH]; [discriminate|].
  cbn [good_prefix first_bad]. destruct (good_step g); cbn [List.length].
  - intros H. apply IH in H. lia.
  - lia.
Qed.

Lemma run_events_started :
  (Z.of_nat (List.length (argv w)) =? 3) && (init_ret w =? 0) && cap_opened w
  = true ->
  run_events name w
  = startup_events w ++ loop_events name w 0 (stream w) ++ cleanup_events w.
Proof.
  intros H. unfold run_events.
  apply andb_prop in H as [H Hc]. apply andb_prop in H as [Ha Hi].
  now rewrite Ha, Hi, Hc.
Qed.

(** What a predicate on printfs of the loop keeps of a run that starts. *)
Lemma filter_run_loop_only p :
  (forall e, in_loop e = false -> p e = false) ->
  p (Printf fmt_warning []) = false ->
  (forall a, p (Printf "Saving inference result to output.mp4 (FPS: %.1f, Size: %dx%d)\n" a) = false) ->
  p (Printf "Video saved successfully: output.mp4\n" []) = false ->
  (Z.of_nat (List.length (argv w)) =? 3) && (init_ret w =? 0) && cap_opened w
  = true ->
  filter p (run_events name w) = filter p (loop_events name w 0 (stream w)).
Proof.
  intros Hout H1 H2 H3 Hs. rewrite (run_events_started Hs).
  rewrite !filter_app.
  assert (Hst : filter p (startup_events w) = []).
  { unfold startup_events, writer_events.
    pose proof (Hout (capture_event (nth_arg w 2))) as Hcap.
    destruct (negb (writer_opened w)); cbn [app filter];
      rewrite ?H1, ?H2, Hcap, !Hout; try reflexivity;
      destruct (capture_event_cases w) as [[d ->]|[s ->]]; reflexivity. }
  assert (Hcl : filter p (cleanup_events w) = []).
  { unfold cleanup_events. destruct (writer_opened w); cbn [app filter];
      now rewrite ?H3, !Hout by reflexivity. }
  now rewrite Hst, Hcl, app_nil_r.
Qed.

End NumbersOfARun.

(** X7.  In a run that starts, the headings of the report number the
    frames processed in full 1, 2, 3, ... and give each its number of
    detections; the loop is left with one message, which is the total of
    these frames at the end of the stream or at an empty frame, and the
    number of the next frame with the detector's code when its inference
    fails. *)
Theorem frames_are_numbered_from_one name w :
  (Z.of_nat (List.length (argv w)) =? 3) && (init_ret w =? 0) && cap_opened w
  = true ->
  Z.of_nat (List.length (stream w)) < 2 ^ 63 ->
  let ev := events (trace (snd (main name w))) in
  let done := good_prefix (stream w) in
  let n := Z.of_nat (List.length done) in
  filter (printed fmt_header) ev
  = map (fun kf => Printf "Frame %lld detections (%d objects):\n"
                     [ALong (fst kf); AInt (count (infer_out (snd kf)))])
      (with_numbers done)
  /\ filter (fun e => printed fmt_end e || printed fmt_failed e) ev
     = [match first_bad (stream w) with
        | Some f =>
            if empty (decoded f)
            then Printf "End of video. Total processed frames: %lld\n" [ALong n]
            else Printf "inference failed on frame %lld! ret=%d\n"
                   [ALong (n + 1); AInt (infer_ret f)]
        | None => Printf "End of video. Total processed frames: %lld\n" [ALong n]
        end].
Proof.
  intros Hs Hlen ev done n. subst ev. rewrite events_main.
  pose proof (good_prefix_length (stream w)) as Hle. fold done in Hle.
  assert (Hadv : advance 0 (List.length done) = n)
    by (rewrite advance_small; subst n; lia).
  split.
  - rewrite (filter_run_loop_only name w (printed fmt_header));
      [|intros [] He; try reflexivity; discriminate|reflexivity..|exact Hs].
    unfold loop_events. fold done. rewrite filter_app.
    rewrite (filter_turns name w _ _ _ _ (filter_header_frame name w)).
    rewrite flat_map_singleton, with_numbers_numbered by lia.
    assert (Hlast : forall k o,
              filter (printed fmt_header) (last_turn_events w k o) = []).
    { intros k [f|]; [|reflexivity]. cbn [last_turn_events].
      destruct (empty (decoded f)); reflexivity. }
    now rewrite Hlast, app_nil_r.
  - rewrite (filter_run_loop_only name w
               (fun e => printed fmt_end e || printed fmt_failed e));
      [|intros [] He; try reflexivity; discriminate|reflexivity..|exact Hs].
    unfold loop_events. fold done. rewrite filter_app, Hadv.
    rewrite (filter_turns name w _ (fun _ _ => []));
      [|intros k f; apply count_if_zero; rewrite count_if_cons, count_if_frame_events;
        rewrite (count_if_report name _ _ _ false) by reflexivity;
        rewrite (count_if_draw name w _ _ _ 0) by reflexivity;
        destruct (count (infer_out f) =? 0), (writer_opened w); reflexivity].
    assert (Hnil : forall (l : list (Z * frame_step)),
              flat_map (fun _ => @nil event) l = []).
    { induction l; [reflexivity|assumption]. }
    rewrite Hnil. cbn [app].
    destruct (first_bad (stream w)) as [f|] eqn:Hbad; [|reflexivity].
    apply good_prefix_shorter in Hbad. fold done in Hbad.
    cbn [last_turn_events]. destruct (empty (decoded f)); [reflexivity|].
    rewrite wrap_ll_small by (subst n; lia). reflexivity.
Qed.

Lemma frames_are_numbered_from_one_witness :
  let w := demo_world true [step_one; step_none; step_failed; step_one] in
  let ev := events (trace (snd (main demo_name w))) in
  filter (printed fmt_header) ev
  = [Printf "Frame %lld detections (%d objects):\n" [ALong 1; AInt 1];
     Printf "Frame %lld detections (%d objects):\n" [ALong 2; AInt 0]]
  /\ filter (fun e => printed fmt_end e || printed fmt_failed e) ev
     = [Printf "inference failed on frame %lld! ret=%d\n" [ALong 3; AInt (-1)]].
Proof.
  intros w. apply (frames_are_numbered_from_one demo_name w); reflexivity.
Defined.

(** X8.  In a run that starts, every frame processed in full gets the FPS
    text once, at (10, 40), with its own number and with 1000 divided in
    [double] by the milliseconds its turn took so far; a frame that is not
    processed in full gets none. *)
Theorem fps_text_per_frame name w :
  (Z.of_nat (List.length (argv w)) =? 3) && (init_ret w =? 0) && cap_opened w
  = true ->
  Z.of_nat (List.length (stream w)) < 2 ^ 63 ->
  filter (is_put_text "FPS: %.1f  Frame: %lld")
    (events (trace (snd (main name w))))
  = map (fun kf => PutText "FPS: %.1f  Frame: %lld"
                     [ADouble (SFdiv 53 1024 (binary_normalize 53 1024 1000 0 false)
                                 (elapsed_ms (snd kf)));
                      ALong (fst kf)]
                     10 40)
      (with_numbers (good_prefix (stream w))).
Proof.
  intros Hs Hlen. rewrite events_main.
  pose proof (good_prefix_length (stream w)) as Hle.
  change (is_put_text "FPS: %.1f  Frame: %lld") with (is_put_text fmt_fps).
  rewrite (filter_run_loop_only name w (is_put_text fmt_fps));
    [|intros [] He; try reflexivity; discriminate|reflexivity..|exact Hs].
  unfold loop_events. rewrite filter_app.
  rewrite (filter_turns name w _ _ _ _ (filter_fps_frame name w)).
  rewrite flat_map_singleton, with_numbers_numbered by lia.
  assert (Hlast : forall k o,
            filter (is_put_text fmt_fps) (last_turn_events w k o) = []).
  { intros k [f|]; [|reflexivity]. cbn [last_turn_events].
    destruct (empty (decoded f)); reflexivity. }
  now rewrite Hlast, app_nil_r.
Qed.

Lemma fps_text_per_frame_witness :
  let w := demo_world true [step_one; step_failed] in
  filter (is_put_text "FPS: %.1f  Frame: %lld")
    (events (trace (snd (main demo_name w))))
  = [PutText "FPS: %.1f  Frame: %lld"
       [ADouble (S754_finite false 7036874417766400 (-48)); ALong 1] 10 40].
Proof.
  intros w. apply (fps_text_per_frame demo_name w); reflexivity.
Defined.

(** ** Where the loop stops *)

Section Stop.

Variable name : Z -> string.
Variable w : world.

Lemma loop_with_stream s' s st :
  loop name (with_stream w s') s st = loop name w s st.
Proof.
  revert st; induction s as [|f s IH]; intros st; [reflexivity|].
  cbn [loop]. unfold bind.
  change (turn name (with_stream w s') (Some f) st) with (turn name w (Some f) st).
  destruct (turn name w (Some f) st) as [[] st']; [apply IH | reflexivity].
Qed.

Lemma loop_stops pre f rest st :
  good_step f = false ->
  loop name w (pre ++ f :: rest) st = loop name w (pre ++ [f]) st.
Proof.
  intros Hf. revert st; induction pre as [|g pre IH]; intros st.
  - cbn [app loop]. unfold bind.
    assert (Hb : fst (turn name w (Some f) st) = Break).
    { unfold good_step in Hf. destruct (empty (decoded f)) eqn:He.
      - now rewrite (turn_no_frame name w f st He).
      - cbn [negb andb] in Hf. apply Z.eqb_neq in Hf.
        now rewrite (turn_failed name w f st He Hf). }
    destruct (turn name w (Some f) st) as [fl st']. cbn [fst] in Hb.
    now rewrite Hb.
  - cbn [app loop]. unfold bind.
    destruct (turn name w (Some g) st) as [[] st']; [apply IH | reflexivity].
Qed.

End Stop.

(** X9.  The loop stops at the first frame that is empty or whose
    inference fails: the frames that follow it in the stream change
    neither what [main] returns nor anything of its trace. *)
Theorem nothing_after_the_stop name w pre f rest :
  good_step f = false ->
  main name (with_stream w (pre ++ f :: rest))
  = main name (with_stream w (pre ++ [f])).
Proof.
  intros Hf. unfold main, main_body.
  cbn [argv init_ret cap_opened stream with_stream].
  destruct (negb (Z.of_nat (List.length (argv w)) =? 3)); [reflexivity|].
  unfold bind.
  destruct (emit InitPostProcess initial) as [[] s1].
  destruct (emit (InitModel (nth_arg (with_stream w (pre ++ f :: rest)) 1)) s1)
    as [[] s2] eqn:E2.
  change (emit (InitModel (nth_arg (with_stream w (pre ++ [f])) 1)) s1)
    with (emit (InitModel (nth_arg (with_stream w (pre ++ f :: rest)) 1)) s1).
  rewrite E2.
  destruct (negb (init_ret w =? 0)); [reflexivity|].
  change (nth_arg (with_stream w (pre ++ [f])) 2)
    with (nth_arg (with_stream w (pre ++ f :: rest)) 2).
  destruct (open_capture (nth_arg (with_stream w (pre ++ f :: rest)) 2) s2)
    as [[] s3].
  destruct (negb (cap_opened w)); [reflexivity|].
  change (open_writer (with_stream w (pre ++ [f])) s3)
    with (open_writer (with_stream w (pre ++ f :: rest)) s3).
  destruct (open_writer (with_stream w (pre ++ f :: rest)) s3) as [[] s4].
  rewrite !loop_with_stream, (loop_stops name w pre f rest s4 Hf).
  destruct (loop name w (pre ++ [f]) s4) as [[] s5].
  reflexivity.
Qed.

Lemma nothing_after_the_stop_witness :
  main demo_name (with_stream (demo_world true [])
                    ([step_one] ++ step_failed :: [step_one; step_none]))
  = main demo_name (with_stream (demo_world true [])
                      ([step_one] ++ [step_failed])).
Proof.
  apply (nothing_after_the_stop demo_name (demo_world true []) [step_one]
           step_failed [step_one; step_none]).
  reflexivity.
Defined.

(** X10.  In a run that starts with the writer open, every frame
    processed in full is written once, all of them before the writer is
    released, and the run ends with the release of the writer, the
    message that the video was saved, and the release of the model, the
    tables and the capture, in this order -- also after a failed
    inference. *)
Theorem written_frames_then_release name w :
  (Z.of_nat (List.length (argv w)) =? 3) && (init_ret w =? 0) && cap_opened w
  = true ->
  writer_opened w = true ->
  exists before,
    events (trace (snd (main name w)))
    = before ++ [WriterRelease;
                 Printf "Video saved successfully: output.mp4\n" [];
                 ReleaseModel; DeinitPostProcess; CapRelease]
    /\ count_if is_writer_write before
       = List.length (good_prefix (stream w)).
Proof.
  intros Hs Hw. rewrite events_main, (run_events_started name w Hs).
  exists (startup_events w ++ loop_events name w 0 (stream w)). split.
  - unfold cleanup_events. rewrite Hw. now rewrite <- app_assoc.
  - rewrite count_if_app. unfold startup_events, writer_events.
    rewrite Hw. cbn [negb]. rewrite !count_if_app, !count_if_cons.
    change (count_if is_writer_write []) with 0%nat.
    assert (Hcap : is_writer_write (capture_event (nth_arg w 2)) = false).
    { destruct (capture_event_cases w) as [[d ->]|[s ->]]; reflexivity. }
    rewrite Hcap. cbn [is_writer_write Nat.add].
    unfold loop_events. rewrite count_if_app.
    rewrite (count_if_turns name w _ 1).
    + assert (Hlast : forall k o,
                count_if is_writer_write (last_turn_events w k o) = 0%nat).
      { intros k [f|]; [|reflexivity]. cbn [last_turn_events].
        destruct (empty (decoded f)); reflexivity. }
      rewrite Hlast. lia.
    + intros m f. rewrite count_if_cons, count_if_frame_events, Hw.
      rewrite (count_if_report name _ _ _ false) by reflexivity.
      rewrite (count_if_draw name w _ _ _ 0) by reflexivity.
      destruct (count (infer_out f) =? 0); reflexivity.
Qed.

Lemma written_frames_then_release_witness :
  let w := demo_world true [step_one; step_none; step_failed; step_one] in
  exists before,
    events (trace (snd (main demo_name w)))
    = before ++ [WriterRelease;
                 Printf "Video saved successfully: output.mp4\n" [];
                 ReleaseModel; DeinitPostProcess; CapRelease]
    /\ count_if is_writer_write before = 2%nat.
Proof.
  intros w. apply (written_frames_then_release demo_name w); reflexivity.
Defined.

(** ** Frames and detections, one by one *)

Section PerFrame.

Variable name : Z -> string.
Variable w : world.

(** What a predicate keeps of the good turns when the number of the frame
    does not show in it. *)
Lemma filter_turns_plain p (h : frame_step -> list event) n s :
  (forall k f, filter p (CapRead (decoded f) :: frame_events name w k f) = h f) ->
  filter p (turns_events name w n s) = flat_map h s.
Proof.
  intros H. revert n; induction s as [|f s IH]; intros n; [reflexivity|].
  cbn [turns_events flat_map].
  change (CapRead (decoded f) :: ?a ++ ?b) with ((CapRead (decoded f) :: a) ++ b).
  now rewrite filter_app, H, IH.
Qed.

Lemma filter_map_none {A} (p : event -> bool) (g : A -> event) l :
  (forall a, p (g a) = false) -> filter p (map g l) = [].
Proof.
  intros H. induction l as [|a l IH]; [reflexivity|].
  cbn [map filter]. now rewrite H.
Qed.

Lemma filter_map_all {A} (p : event -> bool) (g : A -> event) l :
  (forall a, p (g a) = true) -> filter p (map g l) = map g l.
Proof.
  intros H. induction l as [|a l IH]; [reflexivity|].
  cbn [map filter]. now rewrite H, IH.
Qed.

Lemma filter_flat_map_all {A} (p : event -> bool) (g : A -> list event) l :
  (forall a, filter p (g a) = g a) -> filter p (flat_map g l) = flat_map g l.
Proof.
  intros H. induction l as [|a l IH]; [reflexivity|].
  cbn [flat_map]. now rewrite filter_app, H, IH.
Qed.

End PerFrame.

(** X11.  In a run that starts, the reads, frame copies, resizes,
    inferences, report headings and failure messages occur in this order
    and no other: for each frame processed in full its read, one copy,
    one resize to the model's size, one inference and the heading with
    its number; then the turn that leaves the loop, which is a read alone
    at the end of the stream or at an empty frame, and a read, one copy,
    one resize, one inference and the failure message when the inference
    fails.  So each delivered frame is copied, resized and inferred
    exactly once and gets exactly one of the heading and the failure
    message. *)
Theorem one_inference_per_frame name w :
  (Z.of_nat (List.length (argv w)) =? 3) && (init_ret w =? 0) && cap_opened w
  = true ->
  Z.of_nat (List.length (stream w)) < 2 ^ 63 ->
  let keep e :=
    is_read e || is_clone e || is_resize e || is_inference e
    || printed fmt_header e || printed fmt_failed e in
  let work :=
    [Clone; Resize (model_width w) (model_height w);
     Inference (model_width w) (model_height w)
       (wrap_int (wrap_int (model_width w * model_height w) * 3))] in
  let done := good_prefix (stream w) in
  filter keep (events (trace (snd (main name w))))
  = flat_map
      (fun kf =>
         CapRead (decoded (snd kf))
         :: work
         ++ [Printf "Frame %lld detections (%d objects):\n"
               [ALong (fst kf); AInt (count (infer_out (snd kf)))]])
      (with_numbers done)
    ++ match first_bad (stream w) with
       | None => [CapRead no_frame]
       | Some f =>
           if empty (decoded f) then [CapRead (decoded f)]
           else CapRead (decoded f)
                :: work
                ++ [Printf "inference failed on frame %lld! ret=%d\n"
                      [ALong (Z.of_nat (List.length done) + 1);
                       AInt (infer_ret f)]]
       end.
Proof.
  intros Hs Hlen keep work done. rewrite events_main.
  pose proof (good_prefix_length (stream w)) as Hle. fold done in Hle.
  rewrite (filter_run_loop_only name w keep);
    [|intros [] He; try reflexivity; discriminate|reflexivity..|exact Hs].
  unfold loop_events. fold done. rewrite filter_app.
  rewrite (filter_turns name w keep
             (fun k f => CapRead (decoded f)
                         :: work
                         ++ [Printf fmt_header
                               [ALong k; AInt (count (infer_out f))]])).
  - rewrite with_numbers_numbered by lia. f_equal.
    rewrite advance_small by lia.
    destruct (first_bad (stream w)) as [f|] eqn:Hbad; [|reflexivity].
    apply good_prefix_shorter in Hbad. fold done in Hbad.
    cbn [last_turn_events]. destruct (empty (decoded f)); [reflexivity|].
    rewrite wrap_ll_small by lia. reflexivity.
  - intros k f. unfold frame_events, report_events, draw_events.
    cbn [filter]. change (keep (CapRead (decoded f))) with true. cbv iota.
    f_equal. rewrite !filter_app.
    assert (Hlines : filter keep (map (report_line name) (infer_out f)) = [])
      by (apply filter_map_none; reflexivity).
    assert (Hdraw : forall sx sy,
              filter keep (flat_map (detection_events name (decoded f) sx sy)
                             (infer_out f)) = [])
      by (intros; apply filter_flat_map_none; reflexivity).
    cbn [filter]. change (keep (Printf fmt_header ?a)) with true.
    change (keep (Scales ?a ?b)) with false. cbv iota.
    rewrite filter_app, Hlines, Hdraw.
    destruct (count (infer_out f) =? 0), (writer_opened w); reflexivity.
Qed.

Lemma one_inference_per_frame_witness :
  let w := demo_world true [step_one; step_none; step_failed; step_one] in
  let keep e :=
    is_read e || is_clone e || is_resize e || is_inference e
    || printed fmt_header e || printed fmt_failed e in
  filter keep (events (trace (snd (main demo_name w))))
  = [CapRead demo_frame; Clone; Resize 640 640; Inference 640 640 1228800;
     Printf "Frame %lld detections (%d objects):\n" [ALong 1; AInt 1];
     CapRead demo_frame; Clone; Resize 640 640; Inference 640 640 1228800;
     Printf "Frame %lld detections (%d objects):\n" [ALong 2; AInt 0];
     CapRead demo_frame; Clone; Resize 640 640; Inference 640 640 1228800;
     Printf "inference failed on frame %lld! ret=%d\n" [ALong 3; AInt (-1)]].
Proof.
  intros w. apply (one_inference_per_frame demo_name w); reflexivity.
Defined.

(** X12.  In a run that starts, with boxes whose scaled edges fit an
    [int], the report lines, the lines for no objects, the scales, the
    mappings, the rectangles and the labels occur in this order and no
    other: for each frame processed in full, first one report line for
    each of its detections in the order of the list (or the one line for
    no objects), then the two scales once, then for each detection in the
    same order its mapped box, the rectangle of that box and its label.
    The turn that leaves the loop adds none of them. *)
Theorem each_detection_reported_and_drawn_once name w :
  (Z.of_nat (List.length (argv w)) =? 3) && (init_ret w =? 0) && cap_opened w
  = true ->
  forallb (fun f =>
             forallb (fun det =>
                        box_in_range (box det)
                          (scale (cols (decoded f)) (model_width w))
                          (scale (rows (decoded f)) (model_height w)))
               (infer_out f))
    (good_prefix (stream w)) = true ->
  let keep e :=
    printed fmt_line e || printed fmt_none e || is_scales e || is_map_box e
    || is_rectangle e || is_put_text fmt_label e in
  let mapped (f : frame_step) det :=
    map_detection (decoded f) (model_width w) (model_height w) (box det) in
  filter keep (events (trace (snd (main name w))))
  = flat_map
      (fun f =>
         map (fun det =>
                Printf "  %s @ (%d %d %d %d) %.3f\n"
                  [AStr (name (cls_id det));
                   AInt (left (box det)); AInt (top (box det));
                   AInt (right (box det)); AInt (bottom (box det));
                   ADouble (prop det)])
           (infer_out f)
         ++ (if count (infer_out f) =? 0
             then [Printf "  no objects detected\n" []] else [])
         ++ Scales (F32.div (F32.of_int (cols (decoded f)))
                      (F32.of_int (model_width w)))
                   (F32.div (F32.of_int (rows (decoded f)))
                      (F32.of_int (model_height w)))
            :: flat_map
                 (fun det =>
                    [MapBox (mapped f det);
                     Rectangle (left (mapped f det)) (top (mapped f det))
                               (right (mapped f det)) (bottom (mapped f det));
                     PutText "%s %.1f%%"
                       [AStr (name (cls_id det));
                        ADouble (F32.mul (prop det) (F32.of_int 100))]
                       (left (mapped f det)) (top (mapped f det) - 10)])
                 (infer_out f))
      (good_prefix (stream w)).
Proof.
  intros Hs _ keep mapped. rewrite events_main.
  rewrite (filter_run_loop_only name w keep);
    [|intros [] He; try reflexivity; discriminate|reflexivity..|exact Hs].
  unfold loop_events. rewrite filter_app.
  assert (Hlast : forall k o, filter keep (last_turn_events w k o) = []).
  { intros k [f|]; [|reflexivity]. cbn [last_turn_events].
    destruct (empty (decoded f)); reflexivity. }
  rewrite Hlast, app_nil_r.
  apply filter_turns_plain. intros k f.
  unfold frame_events, report_events, draw_events.
  cbn [filter]. change (keep (CapRead (decoded f))) with false. cbv iota.
  rewrite !filter_app. cbn [filter inference_events].
  change (keep Clone) with false. change (keep CvtColor) with false.
  change (keep (Resize ?a ?b)) with false.
  change (keep (Inference ?a ?b ?c)) with false.
  change (keep (Printf fmt_header ?a)) with false.
  change (keep (Scales ?a ?b)) with true.
  change (keep (fps_event ?a ?b)) with false. cbv iota.
  rewrite filter_app.
  rewrite (filter_map_all keep (report_line name)) by reflexivity.
  rewrite (filter_flat_map_all keep) by reflexivity.
  cbn [app].
  assert (Hw : filter keep (if writer_opened w then [WriterWrite] else []) = [])
    by (destruct (writer_opened w); reflexivity).
  assert (Hn : filter keep (if count (infer_out f) =? 0
                            then [Printf fmt_none []] else [])
               = (if count (infer_out f) =? 0 then [Printf fmt_none []] else []))
    by (destruct (count (infer_out f) =? 0); reflexivity).
  rewrite Hw, Hn, app_nil_r, <- app_assoc. reflexivity.
Qed.

Lemma each_detection_reported_and_drawn_once_witness :
  let w := demo_world false [step_one; step_none; step_failed; step_one] in
  let keep e :=
    printed fmt_line e || printed fmt_none e || is_scales e || is_map_box e
    || is_rectangle e || is_put_text fmt_label e in
  filter keep (events (trace (snd (main demo_name w))))
  = [Printf "  %s @ (%d %d %d %d) %.3f\n"
       [AStr "person"; AInt 100; AInt 100; AInt 200; AInt 200;
        ADouble (S754_finite false 8388608 (-24))];
     Scales (S754_finite false 12582912 (-22))
            (S754_finite false 14155776 (-23));
     MapBox {| left := 300; top := 168; right := 600; bottom := 337 |};
     Rectangle 300 168 600 337;
     PutText "%s %.1f%%"
       [AStr "person"; ADouble (S754_finite false 13107200 (-18))] 300 158;
     Printf "  no objects detected\n" [];
     Scales (S754_finite false 12582912 (-22))
            (S754_finite false 14155776 (-23))].
Proof.
  intros w. apply (each_detection_reported_and_drawn_once demo_name w).
  - reflexivity.
  - vm_compute. reflexivity.
Defined.

(** X13.  A box that starts at the origin of the model's input is mapped
    to a box that starts at the origin of the frame, for every finite
    scale and every size of the frame. *)
Theorem origin_is_kept (b : image_rect_t) (scale_x scale_y : spec_float)
  (frame : Mat) :
  left b = 0 -> top b = 0 ->
  is_finite scale_x = true -> is_finite scale_y = true ->
  left (map_box b scale_x scale_y frame) = 0
  /\ top (map_box b scale_x scale_y frame) = 0.
Proof.
  intros Hl Ht Hx Hy. unfold map_box, clamp_box, scale_box, scale_edge.
  cbn [left top]. rewrite Hl, Ht.
  assert (H0 : forall s, is_finite s = true ->
                         int_of_float (F32.mul (F32.of_int 0) s) = 0).
  { intros [s|s| |s m e] H; try discriminate; reflexivity. }
  rewrite (H0 _ Hx), (H0 _ Hy). unfold clamp. lia.
Qed.

Lemma origin_is_kept_witness :
  left (map_box {| left := 0; top := 0; right := 640; bottom := 640 |}
          (scale 1920 640) (scale 1080 640) demo_frame) = 0
  /\ top (map_box {| left := 0; top := 0; right := 640; bottom := 640 |}
            (scale 1920 640) (scale 1080 640) demo_frame) = 0.
Proof.
  apply (origin_is_kept {| left := 0; top := 0; right := 640; bottom := 640 |}
           (scale 1920 640) (scale 1080 640) demo_frame); reflexivity.
Defined.

(** * Floating point: what the roundings do *)


Section Digits.

Lemma digits2_pos_log2 p : Zpos (digits2_pos p) = Z.log2 (Zpos p) + 1.
Proof.
  induction p as [p IH|p IH|]; cbn [digits2_pos]; try reflexivity.
  - rewrite Pos2Z.inj_succ, IH.
    change (Z.pos p~1) with (2 * Z.pos p + 1).
    rewrite Z.log2_succ_double by lia. lia.
  - rewrite Pos2Z.inj_succ, IH.
    change (Z.pos p~0) with (2 * Z.pos p).
    rewrite Z.log2_double by lia. lia.
Qed.

Lemma Zdigits2_log2 m : 0 < m -> Zdigits2 m = Z.log2 m + 1.
Proof. destruct m as [|p|p]; try lia. intros _. apply digits2_pos_log2. Qed.

Lemma nat_iter_plus {A} (f : A -> A) n m x :
  Nat.iter (n + m) f x = Nat.iter n f (Nat.iter m f x).
Proof.
  induction n as [|n IH]; [reflexivity|].
  simpl. f_equal. exact IH.
Qed.

Lemma iter_pos_nat {A} (f : A -> A) p x :
  iter_pos f p x = Nat.iter (Pos.to_nat p) f x.
Proof.
  revert x; induction p as [p IH|p IH|]; intros x; cbn [iter_pos].
  - rewrite !IH.
    replace (Pos.to_nat p~1) with (Pos.to_nat p + (Pos.to_nat p + 1))%nat by lia.
    rewrite !nat_iter_plus. reflexivity.
  - rewrite !IH.
    replace (Pos.to_nat p~0) with (Pos.to_nat p + Pos.to_nat p)%nat by lia.
    now rewrite nat_iter_plus.
  - reflexivity.
Qed.

Lemma shr_1_m mrs : 0 <= shr_m mrs -> shr_m (shr_1 mrs) = shr_m mrs / 2.
Proof.
  destruct mrs as [m r s]. cbn [shr_m]. intros Hm.
  destruct m as [|[p|p|]|p]; cbn [shr_1 shr_m]; try lia; try reflexivity.
  - change (Z.pos p~1) with (2 * Z.pos p + 1).
    apply Z.div_unique with 1; lia.
  - change (Z.pos p~0) with (2 * Z.pos p).
    apply Z.div_unique with 0; lia.
Qed.

Lemma shr_1_r mrs : 0 <= shr_m mrs -> shr_r (shr_1 mrs) = Z.odd (shr_m mrs).
Proof.
  destruct mrs as [m r s]. cbn [shr_m]. intros Hm.
  destruct m as [|[p|p|]|p]; cbn [shr_1 shr_r]; try lia; reflexivity.
Qed.

Lemma shr_1_s mrs : shr_s (shr_1 mrs) = shr_r mrs || shr_s mrs.
Proof. destruct mrs as [m r s]. destruct m as [|[p|p|]|[p|p|]]; reflexivity. Qed.

Lemma iter_shr_m k mrs :
  0 <= shr_m mrs -> shr_m (Nat.iter k shr_1 mrs) = shr_m mrs / 2 ^ Z.of_nat k.
Proof.
  intros Hm. induction k as [|k IH].
  - simpl. now rewrite Z.div_1_r.
  - change (Nat.iter (S k) shr_1 mrs) with (shr_1 (Nat.iter k shr_1 mrs)).
    rewrite shr_1_m, IH by (rewrite IH; apply Z.div_pos; lia).
    rewrite Nat2Z.inj_succ, Z.pow_succ_r by lia.
    rewrite Z.div_div by lia. f_equal. lia.
Qed.

End Digits.

Section Shifting.

(** [m mod 2^(k+1)] from bit [k] and the bits below. *)
Lemma mod_pow2_succ m k :
  0 <= k ->
  m mod 2 ^ (k + 1) = 2 ^ k * ((m / 2 ^ k) mod 2) + m mod 2 ^ k.
Proof.
  intros Hk. rewrite Z.pow_add_r, Z.pow_1_r by lia.
  rewrite Z.rem_mul_r by lia. lia.
Qed.

Lemma odd_mod2 a : a mod 2 = if Z.odd a then 1 else 0.
Proof. rewrite Zmod_odd. reflexivity. Qed.

Lemma shr_1_eq mrs :
  0 <= shr_m mrs ->
  shr_1 mrs
  = Build_shr_record (shr_m mrs / 2) (Z.odd (shr_m mrs))
      (shr_r mrs || shr_s mrs).
Proof.
  intros Hm.
  assert (H := shr_1_m mrs Hm). assert (H' := shr_1_r mrs Hm).
  assert (H'' := shr_1_s mrs).
  destruct (shr_1 mrs) as [m' r' s']. cbn [shr_m shr_r shr_s] in *.
  now subst.
Qed.

(** The record after [k] shifts of an exact [m]: the quotient, the bit
    shifted out last and whether any bit before it was set. *)
Lemma iter_shr_exact k m :
  0 <= m ->
  Nat.iter (S k) shr_1 (Build_shr_record m false false)
  = Build_shr_record (m / 2 ^ Z.of_nat (S k))
      (Z.odd (m / 2 ^ Z.of_nat k))
      (negb (m mod 2 ^ Z.of_nat k =? 0)).
Proof.
  intros Hm. induction k as [|k IH].
  - change (Nat.iter 1 shr_1 ?x) with (shr_1 x).
    rewrite shr_1_eq by exact Hm. cbn [shr_m shr_r shr_s orb].
    change (Z.of_nat 0) with 0. change (Z.of_nat 1) with 1.
    now rewrite Z.pow_0_r, Z.div_1_r, Z.mod_1_r, Z.pow_1_r.
  - change (Nat.iter (S (S k)) shr_1 ?x) with (shr_1 (Nat.iter (S k) shr_1 x)).
    rewrite IH. rewrite shr_1_eq by (cbn [shr_m]; apply Z.div_pos; lia).
    cbn [shr_m shr_r shr_s]. f_equal.
    + rewrite Z.div_div by lia. f_equal.
      rewrite (Nat2Z.inj_succ (S k)), Z.pow_succ_r by lia. lia.
    + replace (Z.of_nat (S k)) with (Z.of_nat k + 1) by lia.
      rewrite mod_pow2_succ, odd_mod2 by lia.
      assert (0 <= m mod 2 ^ Z.of_nat k) by (apply Z.mod_pos_bound; lia).
      assert (0 < 2 ^ Z.of_nat k) by lia.
      destruct (Z.odd (m / 2 ^ Z.of_nat k)); cbn [orb].
      * symmetry. apply negb_true_iff, Z.eqb_neq. lia.
      * f_equal. f_equal. lia.
Qed.

(** Rounding the record to nearest-even is [rne]. *)
Lemma round_iter_shr k m :
  0 <= m ->
  let mrs := Nat.iter (S k) shr_1 (Build_shr_record m false false) in
  round_nearest_even (shr_m mrs) (loc_of_shr_record mrs)
  = rne m (Z.of_nat (S k)).
Proof.
  intros Hm mrs. subst mrs. rewrite (iter_shr_exact k m Hm).
  cbn [shr_m]. unfold rne.
  replace (Z.of_nat (S k)) with (Z.of_nat k + 1) by lia.
  rewrite mod_pow2_succ, odd_mod2 by lia.
  assert (Hb := Z.mod_pos_bound m (2 ^ Z.of_nat k) ltac:(lia)).
  assert (Hp : 2 ^ (Z.of_nat k + 1) = 2 * 2 ^ Z.of_nat k)
    by (rewrite Z.pow_add_r, Z.pow_1_r; lia).
  rewrite Hp.
  destruct (Z.odd (m / 2 ^ Z.of_nat k)) eqn:Ho;
    destruct (m mod 2 ^ Z.of_nat k =? 0) eqn:Hz; cbn [negb loc_of_shr_record
      round_nearest_even].
  - apply Z.eqb_eq in Hz. rewrite Hz.
    replace (2 * (2 ^ Z.of_nat k * 1 + 0) ?= 2 * 2 ^ Z.of_nat k) with Eq
      by (symmetry; apply Z.compare_eq_iff; lia).
    reflexivity.
  - apply Z.eqb_neq in Hz.
    replace (2 * (2 ^ Z.of_nat k * 1 + m mod 2 ^ Z.of_nat k)
             ?= 2 * 2 ^ Z.of_nat k) with Gt
      by (symmetry; apply Z.compare_gt_iff; lia).
    reflexivity.
  - apply Z.eqb_eq in Hz. rewrite Hz.
    replace (2 * (2 ^ Z.of_nat k * 0 + 0) ?= 2 * 2 ^ Z.of_nat k) with Lt
      by (symmetry; apply Z.compare_lt_iff; lia).
    reflexivity.
  - replace (2 * (2 ^ Z.of_nat k * 0 + m mod 2 ^ Z.of_nat k)
             ?= 2 * 2 ^ Z.of_nat k) with Lt
      by (symmetry; apply Z.compare_lt_iff; lia).
    reflexivity.
Qed.

End Shifting.

Section RoundAux.

Lemma rne_0_r m : rne m 0 = m.
Proof.
  unfold rne. rewrite Z.pow_0_r, Z.div_1_r, Z.mod_1_r. reflexivity.
Qed.

Lemma rne_bounds m n :
  0 <= m -> 0 <= n -> m / 2 ^ n <= rne m n <= m / 2 ^ n + 1.
Proof.
  intros Hm Hn. unfold rne.
  destruct (2 * (m mod 2 ^ n) ?= 2 ^ n); try lia.
  destruct (Z.even (m / 2 ^ n)); lia.
Qed.

(** One [shr] of an exact mantissa. *)
Lemma shr_exact m e n :
  0 <= m -> 0 <= n ->
  exists mrs,
    shr (shr_record_of_loc m loc_Exact) e n = (mrs, e + n)
    /\ shr_m mrs = m / 2 ^ n
    /\ round_nearest_even (shr_m mrs) (loc_of_shr_record mrs) = rne m n.
Proof.
  intros Hm Hn. destruct n as [|p|p]; try lia.
  - exists (Build_shr_record m false false). cbn [shr shr_record_of_loc].
    rewrite Z.add_0_r, rne_0_r, Z.pow_0_r, Z.div_1_r. repeat split.
  - cbn [shr shr_record_of_loc]. rewrite iter_pos_nat.
    destruct (Pos.to_nat p) as [|k] eqn:Hk; [lia|].
    exists (Nat.iter (S k) shr_1 (Build_shr_record m false false)).
    assert (Hp : Z.pos p = Z.of_nat (S k)) by lia.
    rewrite Hp. repeat split.
    + rewrite iter_shr_exact by exact Hm. reflexivity.
    + apply (round_iter_shr k m Hm).
Qed.

End RoundAux.

Section RoundAuxExact.

Lemma fexp_eq e : fexp 24 128 e = Z.max (e - 24) (-149).
Proof. reflexivity. Qed.

Lemma log2_bounds m : 0 < m -> 2 ^ Z.log2 m <= m < 2 ^ (Z.log2 m + 1).
Proof. intros H. pose proof (Z.log2_spec m H). lia. Qed.

Lemma log2_ge m k : 0 <= k -> 2 ^ k <= m -> k <= Z.log2 m.
Proof.
  intros Hk H. apply Z.log2_le_pow2; [|exact H].
  pose proof (Z.pow_pos_nonneg 2 k). lia.
Qed.

Lemma log2_lt m k : 0 < m -> m < 2 ^ k -> Z.log2 m < k.
Proof. intros Hm H. apply Z.log2_lt_pow2; assumption. Qed.

(** What [binary_round_aux] makes of an exact [m * 2^e] that has at
    least the digits the format keeps: the mantissa rounded to nearest
    even, in canonical form. *)
Lemma binary_round_aux_exact sx m e :
  0 < m ->
  let n := fexp 24 128 (Zdigits2 m + e) - e in
  0 <= n ->
  exists m2 e2,
    0 <= m2 /\ e + n <= e2
    /\ m2 * 2 ^ (e2 - (e + n)) = rne m n
    /\ (m2 = 0 \/ (0 < m2 /\ fexp 24 128 (Zdigits2 m2 + e2) = e2))
    /\ binary_round_aux 24 128 sx m e loc_Exact
       = match m2 with
         | Z0 => S754_zero sx
         | Zpos p =>
             if e2 <=? 104 then S754_finite sx p e2 else S754_infinity sx
         | Zneg _ => S754_nan
         end.
Proof.
  intros Hm n Hn.
  unfold binary_round_aux, shr_fexp. fold n.
  assert (Hndef : n = Z.max (Z.log2 m + 1 + e - 24) (-149) - e)
    by (subst n; rewrite fexp_eq, (Zdigits2_log2 m Hm); reflexivity).
  clearbody n.
  destruct (shr_exact m e n ltac:(lia) Hn) as [mrs [Hshr [Hq Hr]]].
  rewrite Hshr, Hr.
  set (q1 := rne m n). set (e1 := e + n).
  assert (He1lo : -149 <= e1) by (subst e1; lia).
  pose proof (rne_bounds m n ltac:(lia) Hn) as Hb. fold q1 in Hb.
  pose proof (log2_bounds m Hm) as Hlm.
  assert (Hqlt : m / 2 ^ n < 2 ^ 24).
  { apply Z.div_lt_upper_bound; [lia|].
    rewrite <- Z.pow_add_r by lia.
    apply Z.lt_le_trans with (2 ^ (Z.log2 m + 1)); [lia|].
    apply Z.pow_le_mono_r; lia. }
  assert (Hqge : 0 <= m / 2 ^ n) by (apply Z.div_pos; lia).
  destruct (Z.eq_dec q1 0) as [Hz|Hnz].
  - (* rounded to nothing *)
    exists 0, e1. rewrite Hz.
    assert (Hn2 : fexp 24 128 (Zdigits2 0 + e1) - e1 <= 0)
      by (rewrite fexp_eq; cbn [Zdigits2]; lia).
    split; [lia|]. split; [lia|]. split; [lia|]. split; [now left|].
    destruct (fexp 24 128 (Zdigits2 0 + e1) - e1) as [|p|p] eqn:E; try lia;
      reflexivity.
  - assert (Hq1 : 0 < q1) by lia.
    pose proof (log2_bounds q1 Hq1) as Hl1.
    assert (Hnorm : -149 < e1 -> 23 <= Z.log2 q1).
    { intros Hgt. apply log2_ge; [lia|].
      apply Z.le_trans with (m / 2 ^ n); [|lia].
      apply Z.div_le_lower_bound; [lia|].
      assert (Hn' : n = Z.log2 m + 1 - 24) by (subst e1; lia).
      rewrite <- Z.pow_add_r by lia.
      replace (n + 23) with (Z.log2 m) by lia. lia. }
    assert (Hl1hi : Z.log2 q1 <= 24).
    { destruct (Z_le_gt_dec (Z.log2 q1) 24); [assumption|].
      assert (2 ^ 25 <= 2 ^ Z.log2 q1) by (apply Z.pow_le_mono_r; lia).
      lia. }
    rewrite (Zdigits2_log2 q1 Hq1).
    destruct (Z.eq_dec (Z.log2 q1) 24) as [H24|H24].
    + (* the rounding carried into a new digit *)
      assert (Hq1eq : q1 = 2 ^ 24) by (rewrite H24 in Hl1; lia).
      assert (Hn2 : fexp 24 128 (Z.log2 q1 + 1 + e1) - e1 = 1)
        by (rewrite fexp_eq, H24; lia).
      rewrite Hn2.
      destruct (shr_exact q1 e1 1 ltac:(lia) ltac:(lia)) as [mrs2 [Hshr2 [Hq2 _]]].
      rewrite Hshr2, Hq2, Hq1eq.
      exists (2 ^ 23), (e1 + 1).
      replace (e1 + 1 - e1) with 1 by lia.
      split; [lia|]. split; [lia|]. split; [subst q1; lia|].
      split; [|reflexivity].
      right. split; [lia|]. rewrite fexp_eq.
      change (Zdigits2 (2 ^ 23)) with 24. lia.
    + assert (Hn2 : fexp 24 128 (Z.log2 q1 + 1 + e1) - e1 = 0).
      { rewrite fexp_eq. destruct (Z.eq_dec e1 (-149)); [lia|].
        specialize (Hnorm ltac:(lia)). lia. }
      rewrite Hn2. cbn [shr shr_record_of_loc shr_m].
      exists q1, e1. rewrite Z.sub_diag, Z.pow_0_r, Z.mul_1_r.
      split; [lia|]. split; [lia|]. split; [reflexivity|]. split.
      * right. split; [lia|]. rewrite (Zdigits2_log2 q1 Hq1). lia.
      * destruct q1; try lia. reflexivity.
Qed.

End RoundAuxExact.

Section RoundingOrder.

Lemma rne_mono a b n : 0 <= a <= b -> 0 <= n -> rne a n <= rne b n.
Proof.
  intros Hab Hn.
  assert (Hp : 0 < 2 ^ n) by lia.
  pose proof (Z.div_mod a (2 ^ n) ltac:(lia)) as Ha.
  pose proof (Z.div_mod b (2 ^ n) ltac:(lia)) as Hb.
  pose proof (Z.mod_pos_bound a (2 ^ n) Hp) as Hra.
  pose proof (Z.mod_pos_bound b (2 ^ n) Hp) as Hrb.
  assert (Hq : a / 2 ^ n <= b / 2 ^ n) by (apply Z.div_le_mono; lia).
  pose proof (rne_bounds a n ltac:(lia) Hn) as Ba.
  pose proof (rne_bounds b n ltac:(lia) Hn) as Bb.
  destruct (Z.eq_dec (a / 2 ^ n) (b / 2 ^ n)) as [E|E]; [|lia].
  assert (Hr : a mod 2 ^ n <= b mod 2 ^ n) by nia.
  unfold rne in *. rewrite <- E in *.
  destruct (Z.compare_spec (2 * (a mod 2 ^ n)) (2 ^ n));
    destruct (Z.compare_spec (2 * (b mod 2 ^ n)) (2 ^ n));
    try lia; destruct (Z.even (a / 2 ^ n)); lia.
Qed.

Lemma rne_exact a n : 0 <= n -> rne (a * 2 ^ n) n = a.
Proof.
  intros Hn. unfold rne.
  rewrite Z.div_mul, Z.mod_mul by lia.
  replace (2 * 0 ?= 2 ^ n) with Lt; [reflexivity|].
  symmetry. apply Z.compare_lt_iff. lia.
Qed.

Lemma compare_scale x y k : 0 < k -> (x * k ?= y * k) = (x ?= y).
Proof.
  intros Hk. destruct (Z.compare_spec x y).
  - apply Z.compare_eq_iff. nia.
  - apply Z.compare_lt_iff. nia.
  - apply Z.compare_gt_iff. nia.
Qed.

Lemma rne_scale a n c :
  0 <= n -> 0 <= c -> rne (a * 2 ^ c) (n + c) = rne a n.
Proof.
  intros Hn Hc. unfold rne.
  rewrite Z.pow_add_r by lia.
  rewrite Z.div_mul_cancel_r by lia.
  rewrite Z.mul_mod_distr_r by lia.
  replace (2 * (a mod 2 ^ n * 2 ^ c) ?= 2 ^ n * 2 ^ c)
    with (2 * (a mod 2 ^ n) ?= 2 ^ n); [reflexivity|].
  rewrite Z.mul_assoc. symmetry. apply compare_scale. lia.
Qed.

Lemma Rnd_nonneg lo v : 0 <= v -> 0 <= lo -> 0 <= Rnd lo v.
Proof.
  intros Hv Hlo. unfold Rnd.
  set (u := Z.max (Z.log2 v - 23) lo).
  pose proof (rne_bounds v u Hv ltac:(lia)).
  assert (0 <= v / 2 ^ u) by (apply Z.div_pos; lia).
  apply Z.mul_nonneg_nonneg; lia.
Qed.

(** Rounding keeps the order. *)
Lemma Rnd_mono lo v1 v2 :
  0 <= lo -> 0 <= v1 <= v2 -> Rnd lo v1 <= Rnd lo v2.
Proof.
  intros Hlo Hv.
  destruct (Z.eq_dec v1 0) as [->|Hnz].
  { transitivity 0; [|apply Rnd_nonneg; lia].
    unfold Rnd. cbn [Z.log2]. unfold rne.
    rewrite Z.div_0_l, Z.mod_0_l by lia.
    replace (2 * 0 ?= 2 ^ Z.max (0 - 23) lo) with Lt; [lia|].
    symmetry. apply Z.compare_lt_iff. lia. }
  assert (H1 : 0 < v1) by lia. assert (H2 : 0 < v2) by lia.
  unfold Rnd.
  set (u1 := Z.max (Z.log2 v1 - 23) lo). set (u2 := Z.max (Z.log2 v2 - 23) lo).
  pose proof (Z.log2_le_mono v1 v2 ltac:(lia)) as Hl.
  assert (Hu : u1 <= u2) by lia.
  destruct (Z.eq_dec u1 u2) as [E|E].
  - rewrite E. apply Z.mul_le_mono_nonneg_r; [lia|].
    apply rne_mono; lia.
  - pose proof (log2_bounds v1 H1) as B1. pose proof (log2_bounds v2 H2) as B2.
    pose proof (rne_bounds v1 u1 ltac:(lia) ltac:(lia)) as R1.
    pose proof (rne_bounds v2 u2 ltac:(lia) ltac:(lia)) as R2.
    assert (Hq1 : v1 / 2 ^ u1 < 2 ^ 24).
    { apply Z.div_lt_upper_bound; [lia|].
      rewrite <- Z.pow_add_r by lia.
      apply Z.lt_le_trans with (2 ^ (Z.log2 v1 + 1)); [lia|].
      apply Z.pow_le_mono_r; lia. }
    assert (Hq2 : 2 ^ 23 <= v2 / 2 ^ u2).
    { apply Z.div_le_lower_bound; [lia|].
      rewrite <- Z.pow_add_r by lia.
      replace (u2 + 23) with (Z.log2 v2) by lia. lia. }
    apply Z.le_trans with (2 ^ 24 * 2 ^ u1).
    + apply Z.mul_le_mono_nonneg_r; lia.
    + apply Z.le_trans with (2 ^ 23 * 2 ^ u2).
      * rewrite <- !Z.pow_add_r by lia. apply Z.pow_le_mono_r; lia.
      * apply Z.mul_le_mono_nonneg_r; lia.
Qed.

(** A number of at most 24 bits times a power of two is kept. *)
Lemma Rnd_fix lo a c :
  0 <= lo <= c -> 0 < a < 2 ^ 24 -> Rnd lo (a * 2 ^ c) = a * 2 ^ c.
Proof.
  intros Hc Ha. unfold Rnd.
  set (u := Z.max (Z.log2 (a * 2 ^ c) - 23) lo).
  assert (Hu : 0 <= u <= c).
  { subst u. rewrite Z.log2_mul_pow2 by lia.
    assert (Z.log2 a < 24) by (apply log2_lt; lia).
    pose proof (Z.log2_nonneg a). lia. }
  replace (a * 2 ^ c) with (a * 2 ^ (c - u) * 2 ^ u)
    by (rewrite <- Z.mul_assoc, <- Z.pow_add_r by lia; f_equal; f_equal; lia).
  now rewrite rne_exact by lia.
Qed.

End RoundingOrder.

Section Bridge.

(** [binary_round_aux] on an exact [m * 2^e], in units of [2^-K]: the
    result is [Rnd] of the exact value. *)
Lemma binary_round_aux_Rnd sx m e K :
  0 < m -> 0 <= fexp 24 128 (Zdigits2 m + e) - e ->
  0 <= e + K -> 149 <= K ->
  (binary_round_aux 24 128 sx m e loc_Exact = S754_zero sx
   /\ Rnd (K - 149) (m * 2 ^ (e + K)) = 0)
  \/ exists m2 e2,
       Zpos m2 * 2 ^ (e2 + K) = Rnd (K - 149) (m * 2 ^ (e + K))
       /\ fexp 24 128 (Zdigits2 m + e) <= e2
       /\ fexp 24 128 (Zdigits2 (Zpos m2) + e2) = e2
       /\ binary_round_aux 24 128 sx m e loc_Exact
          = if e2 <=? 104 then S754_finite sx m2 e2 else S754_infinity sx.
Proof.
  intros Hm Hn HK HK'.
  destruct (binary_round_aux_exact sx m e Hm Hn)
    as [m2 [e2 [Hm2 [He2 [Hval [Hcan Hres]]]]]].
  set (n := fexp 24 128 (Zdigits2 m + e) - e) in *.
  assert (HR : Rnd (K - 149) (m * 2 ^ (e + K)) = rne m n * 2 ^ (e + n + K)).
  { unfold Rnd. rewrite Z.log2_mul_pow2 by lia.
    assert (Hu : Z.max (e + K + Z.log2 m - 23) (K - 149) = n + (e + K)).
    { subst n. rewrite fexp_eq, (Zdigits2_log2 m Hm). lia. }
    rewrite Hu, rne_scale by lia. f_equal. f_equal. lia. }
  destruct Hcan as [Hz|[Hpos Hcan]].
  - left. subst m2. split; [exact Hres|].
    rewrite HR, <- Hval. lia.
  - right. destruct m2 as [|p|p]; try lia.
    exists p, e2. split; [|split; [subst n; lia|split; [exact Hcan|exact Hres]]].
    rewrite HR, <- Hval, <- Z.mul_assoc, <- Z.pow_add_r by lia.
    f_equal. f_equal. lia.
Qed.

Lemma trunc_mag_scaled m e K :
  0 <= e + K -> 0 <= K -> trunc_mag m e = (Zpos m * 2 ^ (e + K)) / 2 ^ K.
Proof.
  intros H HK. destruct e as [|p|p]; cbn [trunc_mag].
  - rewrite Z.add_0_l, Z.div_mul by lia. reflexivity.
  - rewrite Z.shiftl_mul_pow2 by lia.
    rewrite Z.pow_add_r, Z.mul_assoc, Z.div_mul by lia. reflexivity.
  - rewrite Z.shiftr_div_pow2 by lia.
    replace K with (Z.pos p + (Z.neg p + K)) at 2 by lia.
    rewrite (Z.pow_add_r 2 (Z.pos p)) by lia.
    rewrite Z.div_mul_cancel_r by lia. reflexivity.
Qed.

End Bridge.

Section OfInt.

Lemma pos_iter_xO p d : Zpos (Pos.iter xO p d) = Zpos p * 2 ^ Zpos d.
Proof.
  induction d as [|d IH] using Pos.peano_ind.
  - cbn [Pos.iter]. change (2 ^ 1) with 2. lia.
  - rewrite Pos.iter_succ, Pos2Z.inj_xO, IH, Pos2Z.inj_succ, Z.pow_succ_r by lia.
    lia.
Qed.

Lemma shl_align_spec p ex ex' :
  exists mz,
    shl_align p ex ex' = (mz, Z.min ex ex')
    /\ Zpos mz = Zpos p * 2 ^ (ex - Z.min ex ex').
Proof.
  unfold shl_align. destruct (ex' - ex) as [|d|d] eqn:E.
  - exists p. replace (Z.min ex ex') with ex by lia.
    rewrite Z.sub_diag. split; [reflexivity|lia].
  - exists p. replace (Z.min ex ex') with ex by lia.
    rewrite Z.sub_diag. split; [reflexivity|lia].
  - exists (Pos.iter xO p d). replace (Z.min ex ex') with ex' by lia.
    split; [reflexivity|]. rewrite pos_iter_xO. f_equal. f_equal. lia.
Qed.

(** A canonical mantissa above the smallest exponent has 24 digits. *)
Lemma canonical_digits m e :
  fexp 24 128 (Zdigits2 (Zpos m) + e) = e -> -149 < e ->
  Z.log2 (Zpos m) = 23.
Proof.
  rewrite fexp_eq, (Zdigits2_log2 (Zpos m)) by lia. lia.
Qed.

(** [binary_round] of a positive integer, in units of [2^-149]. *)
Lemma binary_round_int sx p :
  exists m e,
    Zpos m * 2 ^ (e + 149) = Rnd 0 (Zpos p * 2 ^ 149)
    /\ -23 <= e /\ Z.log2 (Zpos m) = 23
    /\ binary_round 24 128 sx p 0
       = if e <=? 104 then S754_finite sx m e else S754_infinity sx.
Proof.
  unfold binary_round.
  destruct (shl_align_spec p 0 (fexp 24 128 (Zpos (digits2_pos p) + 0)))
    as [mz [Hshl Hmz]].
  rewrite Hshl.
  set (ez := Z.min 0 (fexp 24 128 (Zpos (digits2_pos p) + 0))) in *.
  pose proof (Z.log2_nonneg (Zpos p)) as Hlp.
  assert (Hez : -23 <= ez <= 0 \/ ez = 0).
  { subst ez. rewrite fexp_eq, digits2_pos_log2. lia. }
  assert (Hdz : Zdigits2 (Zpos mz) = Z.log2 (Zpos p) + 1 - ez).
  { rewrite Zdigits2_log2 by lia. rewrite Hmz.
    rewrite Z.log2_mul_pow2 by lia. lia. }
  assert (Hfe : fexp 24 128 (Zdigits2 (Zpos mz) + ez)
                = Z.max (Z.log2 (Zpos p) + 1 - 24) (-149)).
  { rewrite Hdz, fexp_eq. f_equal. lia. }
  assert (Hezle : ez <= fexp 24 128 (Zdigits2 (Zpos mz) + ez)).
  { rewrite Hfe. subst ez. rewrite fexp_eq, digits2_pos_log2. lia. }
  destruct (binary_round_aux_Rnd sx (Zpos mz) ez 149 ltac:(lia) ltac:(lia)
              ltac:(lia) ltac:(lia)) as [[_ Hz]|[m2 [e2 [Hv [Hlo [Hcan Hres]]]]]].
  - exfalso. rewrite Hmz in Hz.
    rewrite <- Z.mul_assoc, <- Z.pow_add_r in Hz by lia.
    replace (0 - ez + (ez + 149)) with 149 in Hz by lia.
    replace (149 - 149) with 0 in Hz by lia.
    pose proof (Rnd_mono 0 (1 * 2 ^ 149) (Zpos p * 2 ^ 149) ltac:(lia)
                  ltac:(nia)) as Hmono.
    rewrite Rnd_fix in Hmono by lia. lia.
  - exists m2, e2. rewrite Hfe in Hlo.
    replace (149 - 149) with 0 in Hv by lia.
    split; [|split; [lia|split; [|exact Hres]]].
    + rewrite Hv, Hmz. f_equal.
      rewrite <- Z.mul_assoc, <- Z.pow_add_r by lia. f_equal. f_equal. lia.
    + apply (canonical_digits m2 e2 Hcan). lia.
Qed.

(** [(float) x] for an [int] that is not 0. *)
Lemma of_int_nonzero x :
  x <> 0 ->
  exists m e,
    Zpos m * 2 ^ (e + 149) = Rnd 0 (Z.abs x * 2 ^ 149)
    /\ -23 <= e /\ Z.log2 (Zpos m) = 23
    /\ F32.of_int x
       = if e <=? 104 then S754_finite (x <? 0) m e
         else S754_infinity (x <? 0).
Proof.
  intros Hx. unfold F32.of_int, binary_normalize.
  destruct x as [|p|p]; [contradiction| |].
  - exact (binary_round_int false p).
  - exact (binary_round_int true p).
Qed.

End OfInt.

(** ** The scaled edge *)

Section ScaledEdge.

Lemma scaled_magnitude_mono ms es a b :
  0 <= a <= b -> scaled_magnitude ms es a <= scaled_magnitude ms es b.
Proof.
  intros Hab. unfold scaled_magnitude.
  set (ks := Z.max 0 (- es)).
  assert (Hs : 0 < Zpos ms * 2 ^ (es + ks)) by (apply Z.mul_pos_pos; lia).
  apply Z.div_le_mono; [lia|].
  apply Rnd_mono; [lia|].
  pose proof (Rnd_nonneg 0 (a * 2 ^ 149) ltac:(nia) ltac:(lia)).
  pose proof (Rnd_mono 0 (a * 2 ^ 149) (b * 2 ^ 149) ltac:(lia) ltac:(nia)).
  split; [nia|]. apply Z.mul_le_mono_nonneg_r; lia.
Qed.

Lemma scaled_magnitude_nonneg ms es a : 0 <= a -> 0 <= scaled_magnitude ms es a.
Proof.
  intros Ha. unfold scaled_magnitude.
  set (ks := Z.max 0 (- es)).
  apply Z.div_pos; [|lia]. apply Rnd_nonneg; [|lia].
  pose proof (Rnd_nonneg 0 (a * 2 ^ 149) ltac:(nia) ltac:(lia)).
  assert (0 < Zpos ms * 2 ^ (es + ks)) by (apply Z.mul_pos_pos; lia).
  nia.
Qed.

(** The cast of an edge times a finite positive scale, when the language
    defines it. *)
Lemma scale_edge_value x ms es :
  x <> 0 ->
  cast_in_range (F32.mul (F32.of_int x) (S754_finite false ms es)) = true ->
  scale_edge x (S754_finite false ms es)
  = if x <? 0 then Z.max INT_MIN (- scaled_magnitude ms es (Z.abs x))
    else Z.min INT_MAX (scaled_magnitude ms es (Z.abs x)).
Proof.
  intros Hx Hr. unfold scale_edge.
  destruct (of_int_nonzero x Hx) as [m [e [Hv [He [Hlog Hof]]]]].
  rewrite Hof in *.
  destruct (e <=? 104) eqn:Hle; [|discriminate Hr].
  unfold F32.mul, SFmul, F32.prec, F32.emax in *.
  replace (xorb (x <? 0) false) with (x <? 0) in * by (now destruct (x <? 0)).
  set (ks := Z.max 0 (- es)).
  assert (HM : 0 < Zpos (m * ms)) by lia.
  pose proof (log2_bounds (Zpos m) ltac:(lia)) as Hbm. rewrite Hlog in Hbm.
  assert (Hlm : 23 <= Z.log2 (Zpos (m * ms))).
  { apply log2_ge; [lia|]. rewrite Pos2Z.inj_mul. nia. }
  assert (Hn : 0 <= fexp 24 128 (Zdigits2 (Zpos (m * ms)) + (e + es)) - (e + es)).
  { rewrite fexp_eq, (Zdigits2_log2 _ HM). lia. }
  destruct (binary_round_aux_Rnd (x <? 0) (Zpos (m * ms)) (e + es) (149 + ks)
              HM Hn ltac:(lia) ltac:(lia))
    as [[Hres Hz]|[m2 [e2 [Hv2 [Hlo [Hcan Hres]]]]]].
  - rewrite Hres. cbn [int_of_float].
    assert (HT : scaled_magnitude ms es (Z.abs x) = 0).
    { unfold scaled_magnitude. fold ks. rewrite <- Hv.
      replace (Zpos m * 2 ^ (e + 149) * (Zpos ms * 2 ^ (es + ks)))
        with (Zpos (m * ms) * 2 ^ (e + es + (149 + ks))).
      - replace (149 + ks - 149) with ks in Hz by lia. rewrite Hz. reflexivity.
      - rewrite Pos2Z.inj_mul.
        replace (e + es + (149 + ks)) with ((e + 149) + (es + ks)) by lia.
        rewrite Z.pow_add_r by lia. ring. }
    rewrite HT. destruct (x <? 0); reflexivity.
  - rewrite Hres in *.
    destruct (e2 <=? 104) eqn:Hle2;
      [|destruct (x <? 0); discriminate Hr].
    cbn [int_of_float].
    assert (HT : trunc_mag m2 e2 = scaled_magnitude ms es (Z.abs x)).
    { rewrite (trunc_mag_scaled m2 e2 (149 + ks)) by lia.
      unfold scaled_magnitude. fold ks. rewrite Hv2, <- Hv.
      replace (149 + ks - 149) with ks by lia. f_equal. f_equal.
      rewrite Pos2Z.inj_mul.
      replace (e + es + (149 + ks)) with ((e + 149) + (es + ks)) by lia.
      rewrite Z.pow_add_r by lia. ring. }
    rewrite HT. reflexivity.
Qed.

Lemma scale_edge_zero ms es : scale_edge 0 (S754_finite false ms es) = 0.
Proof. reflexivity. Qed.

(** Scaling keeps the order of two edges. *)
Lemma scale_edge_mono x y s :
  x <= y -> finite_pos s = true ->
  cast_in_range (F32.mul (F32.of_int x) s) = true ->
  cast_in_range (F32.mul (F32.of_int y) s) = true ->
  scale_edge x s <= scale_edge y s.
Proof.
  intros Hxy Hs Hx Hy.
  destruct s as [| | |[] ms es]; try discriminate Hs.
  assert (Hval : forall z, cast_in_range (F32.mul (F32.of_int z)
                                            (S754_finite false ms es)) = true ->
            (z < 0 -> scale_edge z (S754_finite false ms es)
                      = Z.max INT_MIN (- scaled_magnitude ms es (- z)))
            /\ (0 < z -> scale_edge z (S754_finite false ms es)
                         = Z.min INT_MAX (scaled_magnitude ms es z))).
  { intros z Hz. split; intros Hsign.
    - rewrite (scale_edge_value z ms es ltac:(lia) Hz).
      replace (z <? 0) with true by (symmetry; apply Z.ltb_lt; lia).
      now rewrite Z.abs_neq by lia.
    - rewrite (scale_edge_value z ms es ltac:(lia) Hz).
      replace (z <? 0) with false by (symmetry; apply Z.ltb_ge; lia).
      now rewrite Z.abs_eq by lia. }
  destruct (Hval x Hx) as [Hxn Hxp]. destruct (Hval y Hy) as [Hyn Hyp].
  unfold INT_MIN, INT_MAX in *.
  destruct (Z.lt_trichotomy x 0) as [Hx0|[Hx0|Hx0]];
    destruct (Z.lt_trichotomy y 0) as [Hy0|[Hy0|Hy0]]; try lia.
  - rewrite (Hxn Hx0), (Hyn Hy0).
    pose proof (scaled_magnitude_mono ms es (- y) (- x) ltac:(lia)). lia.
  - rewrite (Hxn Hx0). subst y. rewrite scale_edge_zero.
    pose proof (scaled_magnitude_nonneg ms es (- x) ltac:(lia)). lia.
  - rewrite (Hxn Hx0), (Hyp Hy0).
    pose proof (scaled_magnitude_nonneg ms es (- x) ltac:(lia)).
    pose proof (scaled_magnitude_nonneg ms es y ltac:(lia)). lia.
  - subst x y. lia.
  - subst x. rewrite scale_edge_zero, (Hyp Hy0).
    pose proof (scaled_magnitude_nonneg ms es y ltac:(lia)). lia.
  - rewrite (Hxp Hx0), (Hyp Hy0).
    pose proof (scaled_magnitude_mono ms es x y ltac:(lia)). lia.
Qed.

End ScaledEdge.

(** C10.  The mapping keeps the order of the edges: a box with
    [left <= right] and [top <= bottom], scales that are finite and above
    zero, products that fit an [int]; then what is drawn has
    [x1 <= x2] and [y1 <= y2]. *)
Theorem map_box_keeps_order (b : image_rect_t) (scale_x scale_y : spec_float)
  (frame : Mat) :
  left b <= right b -> top b <= bottom b ->
  finite_pos scale_x = true -> finite_pos scale_y = true ->
  1 <= cols frame -> 1 <= rows frame ->
  box_in_range b scale_x scale_y = true ->
  left (map_box b scale_x scale_y frame) <= right (map_box b scale_x scale_y frame)
  /\ top (map_box b scale_x scale_y frame)
     <= bottom (map_box b scale_x scale_y frame).
Proof.
  intros Hlr Htb Hsx Hsy _ _ Hr. unfold box_in_range in Hr.
  apply andb_prop in Hr as [Hr Hbo]. apply andb_prop in Hr as [Hr Hri].
  apply andb_prop in Hr as [Hle Hto].
  pose proof (scale_edge_mono _ _ _ Hlr Hsx Hle Hri) as Hx.
  pose proof (scale_edge_mono _ _ _ Htb Hsy Hto Hbo) as Hy.
  unfold map_box, clamp_box, scale_box, clamp. cbn [left top right bottom].
  lia.
Qed.

Lemma map_box_keeps_order_witness :
  left (map_box {| left := 100; top := 100; right := 200; bottom := 200 |}
          (scale 1920 640) (scale 1080 640) {| cols := 1920; rows := 1080 |})
  <= right (map_box {| left := 100; top := 100; right := 200; bottom := 200 |}
              (scale 1920 640) (scale 1080 640) {| cols := 1920; rows := 1080 |})
  /\ top (map_box {| left := 100; top := 100; right := 200; bottom := 200 |}
            (scale 1920 640) (scale 1080 640) {| cols := 1920; rows := 1080 |})
     <= bottom (map_box {| left := 100; top := 100; right := 200; bottom := 200 |}
                  (scale 1920 640) (scale 1080 640)
                  {| cols := 1920; rows := 1080 |}).
Proof.
  apply (map_box_keeps_order
           {| left := 100; top := 100; right := 200; bottom := 200 |}
           (scale 1920 640) (scale 1080 640) {| cols := 1920; rows := 1080 |});
    cbn [left top right bottom cols rows]; try lia; vm_compute; reflexivity.
Defined.

(** ** The quotient *)

Section Quotient.







End Quotient.

(** ** The full extent *)

Section FullExtent.





End FullExtent.



